(** * mate-power-manager: the power transition controller (src/gpm-control.c)

    A shallow embedding of [gpm_control_shutdown], [gpm_control_suspend],
    [gpm_control_hibernate] and [gpm_control_new].

    The three operations are straight-line C that talks to the outside
    world (logind over D-Bus, GSettings, the secret service, gnome-keyring,
    NetworkManager, GObject signal handlers).  Every such call is an effect
    of the signature [Eff]; an operation is a finite tree of effects
    ([Prog]); the environment is an arbitrary stateful handler, so every
    answer (and every change of the settings between two reads) is
    universally quantified in the theorems.  Running a program yields its
    return value and the trace of calls with their replies.

    Not modelled: reference counting and freeing of temporaries
    ([g_object_unref], [g_error_free], [g_variant_unref], [g_list_free],
    [g_cancellable_new]) inside the three operations; they never influence
    control flow.  ([gpm_control_suspend] releases its proxy at line 218,
    [gpm_control_hibernate] never does.) *)

From Stdlib Require Import String List ZArith Lia Bool.
From stdpp Require Import base option gmap.
Import ListNotations.
Local Open Scope string_scope.
Local Open Scope list_scope.

(** ** Data *)

Definition gboolean := bool.
Notation "'TRUE'" := true (only parsing).
Notation "'FALSE'" := false (only parsing).

(** [GError]: only the message is ever looked at (by [g_warning]). *)
Record GError := { message : string }.

(** The [GError **error] out-parameter of the public operations:
    [None] is a NULL pointer (the caller does not want the error),
    [Some None] a location holding NULL, [Some (Some e)] a location
    holding [e]. *)
Definition ErrorLoc := option (option GError).

(** GLib's [g_propagate_error (dest, src)], which is how the library
    functions taking [error] report: nothing is written through a NULL
    [dest], and an error already stored is kept. *)
Definition g_propagate_error (dest : ErrorLoc) (src : GError) : ErrorLoc :=
  match dest with
  | None => None
  | Some None => Some (Some src)
  | Some (Some e) => Some (Some e)
  end.

(** The three boolean keys of gpm-common.h that gpm-control.c reads. *)
Inductive SettingsKey :=
| GPM_SETTINGS_LOCK_KEYRING_SUSPEND
| GPM_SETTINGS_LOCK_KEYRING_HIBERNATE
| GPM_SETTINGS_NETWORKMANAGER_SLEEP.

(** [GpmControlAction] of gpm-control.h, the argument of both signals. *)
Inductive GpmControlAction :=
| GPM_CONTROL_ACTION_SUSPEND
| GPM_CONTROL_ACTION_HIBERNATE.

(** [enum { RESUME, SLEEP, LAST_SIGNAL }] *)
Inductive Signal := RESUME | SLEEP.

Inductive GnomeKeyringResult :=
| GNOME_KEYRING_RESULT_OK
| GNOME_KEYRING_RESULT_FAILED (code : positive).

(** Opaque handles handed out by the libraries. *)
Definition GDBusProxy := nat.
Definition GVariant := nat.
Definition SecretService := nat.
Definition SecretCollection := nat.

(** The two conditional-compilation switches of gpm-control.c. *)
Record BuildConfig := {
  WITH_LIBSECRET : bool;
  WITH_KEYRING : bool
}.

(** ** Effects

    One constructor per external call, indexed by the type of its reply.
    A library function that returns NULL and sets its [GError] on failure
    replies with a sum: [inl e] is the failure. *)
Inductive Eff : Type -> Type :=
(* Modelled from the spec: the macro LOGIND_RUNNING() of gpm-common.h,
   the availability probe "re-evaluated per call", is not under src/. *)
| LOGIND_RUNNING : Eff bool
| g_settings_get_boolean (key : SettingsKey) : Eff bool
| secret_service_get_sync : Eff (GError + SecretService)
(* NULL is the empty list *)
| secret_service_get_collections (service : SecretService)
  : Eff (list SecretCollection)
(* [inl e]: returns -1 and sets the error; [inr n]: n objects locked *)
| secret_service_lock_sync (service : SecretService)
    (objects : list SecretCollection) : Eff (GError + Z)
| gnome_keyring_lock_all_sync : Eff GnomeKeyringResult
(* Modelled from the spec: gpm-networkmanager.c is not under src/; both
   functions are fire-and-forget, their result is never consulted. *)
| gpm_networkmanager_sleep : Eff unit
| gpm_networkmanager_wake : Eff unit
(* runs every connected handler inline *)
| g_signal_emit (signal : Signal) (action : GpmControlAction) : Eff unit
(* always the system bus, "org.freedesktop.login1",
   "/org/freedesktop/login1", "org.freedesktop.login1.Manager" *)
| g_dbus_proxy_new_for_bus_sync : Eff (GError + GDBusProxy)
(* g_variant_new ("(b)", interactive), G_DBUS_CALL_FLAGS_NONE, timeout -1 *)
| g_dbus_proxy_call_sync (proxy : GDBusProxy) (method : string)
    (interactive : bool) : Eff (GError + GVariant)
| g_debug (msg : string) : Eff unit
| g_warning (msg : string) : Eff unit.

(** A call together with the reply it got. *)
Inductive Event :=
| EvLogindRunning (running : bool)
| EvSettingsGet (key : SettingsKey) (value : bool)
| EvSecretGet (r : GError + SecretService)
| EvSecretCollections (service : SecretService) (r : list SecretCollection)
| EvSecretLock (service : SecretService) (objects : list SecretCollection)
    (r : GError + Z)
| EvKeyringLockAll (r : GnomeKeyringResult)
| EvNmSleep
| EvNmWake
| EvSignal (signal : Signal) (action : GpmControlAction)
| EvProxyNew (r : GError + GDBusProxy)
| EvProxyCall (proxy : GDBusProxy) (method : string) (interactive : bool)
    (r : GError + GVariant)
| EvDebug (msg : string)
| EvWarning (msg : string).

Definition event_of {X} (e : Eff X) : X -> Event :=
  match e in Eff X return X -> Event with
  | LOGIND_RUNNING => EvLogindRunning
  | g_settings_get_boolean key => EvSettingsGet key
  | secret_service_get_sync => EvSecretGet
  | secret_service_get_collections s => EvSecretCollections s
  | secret_service_lock_sync s objs => EvSecretLock s objs
  | gnome_keyring_lock_all_sync => EvKeyringLockAll
  | gpm_networkmanager_sleep => fun _ => EvNmSleep
  | gpm_networkmanager_wake => fun _ => EvNmWake
  | g_signal_emit sig a => fun _ => EvSignal sig a
  | g_dbus_proxy_new_for_bus_sync => EvProxyNew
  | g_dbus_proxy_call_sync p m i => EvProxyCall p m i
  | g_debug msg => fun _ => EvDebug msg
  | g_warning msg => fun _ => EvWarning msg
  end.

(** ** Programs: finite trees of effects *)
Inductive Prog (A : Type) : Type :=
| Ret (a : A)
| Vis {X : Type} (e : Eff X) (k : X -> Prog A).
Arguments Ret {A} a.
Arguments Vis {A X} e k.

Fixpoint bind {A B} (p : Prog A) (f : A -> Prog B) : Prog B :=
  match p with
  | Ret a => f a
  | Vis e k => Vis e (fun x => bind (k x) f)
  end.

Definition call {X} (e : Eff X) : Prog X := Vis e Ret.

Declare Scope prog_scope.
Delimit Scope prog_scope with prog.
Bind Scope prog_scope with Prog.
Notation "x <- p ;; k" := (bind p (fun x => k))
  (at level 100, p at next level, k at level 200, right associativity,
   only parsing) : prog_scope.
Notation "p ;; k" := (bind p (fun _ => k))
  (at level 100, k at level 200, right associativity,
   only parsing) : prog_scope.
Local Open Scope prog_scope.

(** The environment: a state and the reply it gives to each call. *)
Definition Handler (S : Type) := forall X, Eff X -> S -> X * S.

Fixpoint run {S A} (h : Handler S) (p : Prog A) (s : S)
  : A * S * list Event :=
  match p with
  | Ret a => (a, s, [])
  | Vis e k =>
      let '(x, s1) := h _ e s in
      let '(a, s2, t) := run h (k x) s1 in
      (a, s2, event_of e x :: t)
  end.

Definition result_of {S A} (r : A * S * list Event) : A := r.1.1.
Definition state_of {S A} (r : A * S * list Event) : S := r.1.2.
Definition trace_of {S A} (r : A * S * list Event) : list Event := r.2.

(** ** The operations of gpm-control.c *)

(** [gpm_control_systemd_shutdown] (lines 81-108) *)
Definition gpm_control_systemd_shutdown : Prog gboolean :=
  call (g_debug "Requesting systemd to shutdown");;
  proxy <- call g_dbus_proxy_new_for_bus_sync ;;
  match proxy with
  | inl error =>
      call (g_warning ("Error connecting to dbus - " ++ message error));;
      Ret FALSE
  | inr proxy =>
      res <- call (g_dbus_proxy_call_sync proxy "PowerOff" FALSE) ;;
      match res with
      | inl error =>
          call (g_warning ("Error in dbus - " ++ message error));;
          Ret FALSE
      | inr res => Ret TRUE
      end
  end.

(** [gpm_control_shutdown] (lines 116-123); [error] is never written. *)
Definition gpm_control_shutdown (error : ErrorLoc)
  : Prog (gboolean * ErrorLoc) :=
  let ret := FALSE in
  running <- call LOGIND_RUNNING ;;
  ret <- (if running then gpm_control_systemd_shutdown else Ret ret) ;;
  Ret (ret, error).

(** [gpm_control_suspend] (lines 128-230).  [goto out] is the early
    [Ret (ret, error)]. *)
Definition gpm_control_suspend (cfg : BuildConfig) (error : ErrorLoc)
  : Prog (gboolean * ErrorLoc) :=
  let ret := FALSE in
  running <- call LOGIND_RUNNING ;;
  if negb running then Ret (ret, error)
  else
    error <-
      (if WITH_LIBSECRET cfg then
         lock_libsecret <-
           call (g_settings_get_boolean GPM_SETTINGS_LOCK_KEYRING_SUSPEND) ;;
         if lock_libsecret then
           secretservice_proxy <- call secret_service_get_sync ;;
           match secretservice_proxy with
           | inl e =>
               call (g_warning "failed to connect to secret service");;
               Ret (g_propagate_error error e)
           | inr secretservice_proxy =>
               libsecret_collections <-
                 call (secret_service_get_collections secretservice_proxy) ;;
               match libsecret_collections with
               | [] =>
                   call (g_warning "failed to get secret collections");;
                   Ret error
               | _ :: _ =>
                   num_secrets_locked <-
                     call (secret_service_lock_sync secretservice_proxy
                             libsecret_collections) ;;
                   match num_secrets_locked with
                   | inl e =>
                       call (g_warning "could not lock keyring");;
                       Ret (g_propagate_error error e)
                   | inr n =>
                       (if (n <=? 0)%Z
                        then call (g_warning "could not lock keyring")
                        else Ret tt);;
                       Ret error
                   end
               end
           end
         else Ret error
       else Ret error) ;;
    (if WITH_KEYRING cfg then
       lock_gnome_keyring <-
         call (g_settings_get_boolean GPM_SETTINGS_LOCK_KEYRING_SUSPEND) ;;
       if lock_gnome_keyring then
         keyres <- call gnome_keyring_lock_all_sync ;;
         match keyres with
         | GNOME_KEYRING_RESULT_OK => Ret tt
         | _ => call (g_warning "could not lock keyring")
         end
       else Ret tt
     else Ret tt);;
    nm_sleep <- call (g_settings_get_boolean GPM_SETTINGS_NETWORKMANAGER_SLEEP) ;;
    (if nm_sleep then call gpm_networkmanager_sleep else Ret tt);;
    call (g_debug "emitting sleep");;
    call (g_signal_emit SLEEP GPM_CONTROL_ACTION_SUSPEND);;
    let resume ret :=
      call (g_debug "emitting resume");;
      call (g_signal_emit RESUME GPM_CONTROL_ACTION_SUSPEND);;
      nm_sleep <-
        call (g_settings_get_boolean GPM_SETTINGS_NETWORKMANAGER_SLEEP) ;;
      (if nm_sleep then call gpm_networkmanager_wake else Ret tt);;
      Ret (ret, error) in
    running <- call LOGIND_RUNNING ;;
    if running then
      proxy <- call g_dbus_proxy_new_for_bus_sync ;;
      match proxy with
      | inl dbus_error =>
          call (g_warning
                  ("Error connecting to dbus - " ++ message dbus_error));;
          Ret (FALSE, error)
      | inr proxy =>
          res <- call (g_dbus_proxy_call_sync proxy "Suspend" FALSE) ;;
          match res with
          | inl dbus_error =>
              call (g_warning ("Error in dbus - " ++ message dbus_error));;
              resume TRUE
          | inr res => resume TRUE
          end
      end
    else resume ret.

(** [gpm_control_hibernate] (lines 235-338).  Under WITH_LIBSECRET the
    key read at line 261 is GPM_SETTINGS_LOCK_KEYRING_SUSPEND; under
    WITH_KEYRING the key read at line 288 is
    GPM_SETTINGS_LOCK_KEYRING_HIBERNATE. *)
Definition gpm_control_hibernate (cfg : BuildConfig) (error : ErrorLoc)
  : Prog (gboolean * ErrorLoc) :=
  let ret := FALSE in
  running <- call LOGIND_RUNNING ;;
  if negb running then Ret (ret, error)
  else
    error <-
      (if WITH_LIBSECRET cfg then
         lock_libsecret <-
           call (g_settings_get_boolean GPM_SETTINGS_LOCK_KEYRING_SUSPEND) ;;
         if lock_libsecret then
           secretservice_proxy <- call secret_service_get_sync ;;
           match secretservice_proxy with
           | inl e =>
               call (g_warning "failed to connect to secret service");;
               Ret (g_propagate_error error e)
           | inr secretservice_proxy =>
               libsecret_collections <-
                 call (secret_service_get_collections secretservice_proxy) ;;
               match libsecret_collections with
               | [] =>
                   call (g_warning "failed to get secret collections");;
                   Ret error
               | _ :: _ =>
                   num_secrets_locked <-
                     call (secret_service_lock_sync secretservice_proxy
                             libsecret_collections) ;;
                   match num_secrets_locked with
                   | inl e =>
                       call (g_warning "could not lock keyring");;
                       Ret (g_propagate_error error e)
                   | inr n =>
                       (if (n <=? 0)%Z
                        then call (g_warning "could not lock keyring")
                        else Ret tt);;
                       Ret error
                   end
               end
           end
         else Ret error
       else Ret error) ;;
    (if WITH_KEYRING cfg then
       lock_gnome_keyring <-
         call (g_settings_get_boolean GPM_SETTINGS_LOCK_KEYRING_HIBERNATE) ;;
       if lock_gnome_keyring then
         keyres <- call gnome_keyring_lock_all_sync ;;
         match keyres with
         | GNOME_KEYRING_RESULT_OK => Ret tt
         | _ => call (g_warning "could not lock keyring")
         end
       else Ret tt
     else Ret tt);;
    nm_sleep <- call (g_settings_get_boolean GPM_SETTINGS_NETWORKMANAGER_SLEEP) ;;
    (if nm_sleep then call gpm_networkmanager_sleep else Ret tt);;
    call (g_debug "emitting sleep");;
    call (g_signal_emit SLEEP GPM_CONTROL_ACTION_HIBERNATE);;
    let resume ret :=
      call (g_debug "emitting resume");;
      call (g_signal_emit RESUME GPM_CONTROL_ACTION_HIBERNATE);;
      nm_sleep <-
        call (g_settings_get_boolean GPM_SETTINGS_NETWORKMANAGER_SLEEP) ;;
      (if nm_sleep then call gpm_networkmanager_wake else Ret tt);;
      Ret (ret, error) in
    running <- call LOGIND_RUNNING ;;
    if running then
      proxy <- call g_dbus_proxy_new_for_bus_sync ;;
      match proxy with
      | inl dbus_error =>
          call (g_warning
                  ("Error connecting to dbus - " ++ message dbus_error));;
          Ret (FALSE, error)
      | inr proxy =>
          res <- call (g_dbus_proxy_call_sync proxy "Hibernate" FALSE) ;;
          match res with
          | inl dbus_error =>
              call (g_warning ("Error in dbus - " ++ message dbus_error));;
              resume TRUE
          | inr res => resume TRUE
          end
      end
    else resume ret.

(** The text the two transitions have in common, with what varies made
    a parameter: the key read in the libsecret block, the key read in the
    gnome-keyring block, the login1 method and the action carried by the
    two signals. *)
Definition transition_template (libsecret_key keyring_key : SettingsKey)
    (method : string) (action : GpmControlAction)
    (cfg : BuildConfig) (error : ErrorLoc)
  : Prog (gboolean * ErrorLoc) :=
  let ret := FALSE in
  running <- call LOGIND_RUNNING ;;
  if negb running then Ret (ret, error)
  else
    error <-
      (if WITH_LIBSECRET cfg then
         lock_libsecret <-
           call (g_settings_get_boolean libsecret_key) ;;
         if lock_libsecret then
           secretservice_proxy <- call secret_service_get_sync ;;
           match secretservice_proxy with
           | inl e =>
               call (g_warning "failed to connect to secret service");;
               Ret (g_propagate_error error e)
           | inr secretservice_proxy =>
               libsecret_collections <-
                 call (secret_service_get_collections secretservice_proxy) ;;
               match libsecret_collections with
               | [] =>
                   call (g_warning "failed to get secret collections");;
                   Ret error
               | _ :: _ =>
                   num_secrets_locked <-
                     call (secret_service_lock_sync secretservice_proxy
                             libsecret_collections) ;;
                   match num_secrets_locked with
                   | inl e =>
                       call (g_warning "could not lock keyring");;
                       Ret (g_propagate_error error e)
                   | inr n =>
                       (if (n <=? 0)%Z
                        then call (g_warning "could not lock keyring")
                        else Ret tt);;
                       Ret error
                   end
               end
           end
         else Ret error
       else Ret error) ;;
    (if WITH_KEYRING cfg then
       lock_gnome_keyring <-
         call (g_settings_get_boolean keyring_key) ;;
       if lock_gnome_keyring then
         keyres <- call gnome_keyring_lock_all_sync ;;
         match keyres with
         | GNOME_KEYRING_RESULT_OK => Ret tt
         | _ => call (g_warning "could not lock keyring")
         end
       else Ret tt
     else Ret tt);;
    nm_sleep <- call (g_settings_get_boolean GPM_SETTINGS_NETWORKMANAGER_SLEEP) ;;
    (if nm_sleep then call gpm_networkmanager_sleep else Ret tt);;
    call (g_debug "emitting sleep");;
    call (g_signal_emit SLEEP action);;
    let resume ret :=
      call (g_debug "emitting resume");;
      call (g_signal_emit RESUME action);;
      nm_sleep <-
        call (g_settings_get_boolean GPM_SETTINGS_NETWORKMANAGER_SLEEP) ;;
      (if nm_sleep then call gpm_networkmanager_wake else Ret tt);;
      Ret (ret, error) in
    running <- call LOGIND_RUNNING ;;
    if running then
      proxy <- call g_dbus_proxy_new_for_bus_sync ;;
      match proxy with
      | inl dbus_error =>
          call (g_warning
                  ("Error connecting to dbus - " ++ message dbus_error));;
          Ret (FALSE, error)
      | inr proxy =>
          res <- call (g_dbus_proxy_call_sync proxy method FALSE) ;;
          match res with
          | inl dbus_error =>
              call (g_warning ("Error in dbus - " ++ message dbus_error));;
              resume TRUE
          | inr res => resume TRUE
          end
      end
    else resume ret.

(** The keyring key of each transition, as the spec has it. *)
Definition lock_keyring_key (action : GpmControlAction) : SettingsKey :=
  match action with
  | GPM_CONTROL_ACTION_SUSPEND => GPM_SETTINGS_LOCK_KEYRING_SUSPEND
  | GPM_CONTROL_ACTION_HIBERNATE => GPM_SETTINGS_LOCK_KEYRING_HIBERNATE
  end.

(** The two transitions, by kind. *)
Definition gpm_control_transition (action : GpmControlAction)
  : BuildConfig -> ErrorLoc -> Prog (gboolean * ErrorLoc) :=
  match action with
  | GPM_CONTROL_ACTION_SUSPEND => gpm_control_suspend
  | GPM_CONTROL_ACTION_HIBERNATE => gpm_control_hibernate
  end.

(** The login1 method each transition asks for. *)
Definition login1_method (action : GpmControlAction) : string :=
  match action with
  | GPM_CONTROL_ACTION_SUSPEND => "Suspend"
  | GPM_CONTROL_ACTION_HIBERNATE => "Hibernate"
  end.

(** Follows the spec (4.1): suspend and hibernate are one procedure that
    differs only in the login-manager call and in the keyring key, which
    is the key of the transition's own kind. *)
Definition transition_as_specified (action : GpmControlAction)
  : BuildConfig -> ErrorLoc -> Prog (gboolean * ErrorLoc) :=
  transition_template (lock_keyring_key action) (lock_keyring_key action)
    (login1_method action) action.

(** ** A scripted environment

    A concrete handler, for running the operations on explicit inputs:
    the replies are fixed in advance, the availability probe answers from
    a list (and false once the list is used up), and the handlers
    connected to the two signals may rewrite the settings. *)
Record World := {
  logind : list bool;
  settings : SettingsKey -> bool;
  on_signal : Signal -> GpmControlAction ->
              (SettingsKey -> bool) -> SettingsKey -> bool;
  secret_service : GError + SecretService;
  collections : list SecretCollection;
  lock_reply : GError + Z;
  keyring_reply : GnomeKeyringResult;
  bus : GError + GDBusProxy;
  login1_reply : string -> GError + GVariant
}.

Definition world_handler : Handler World := fun X e =>
  match e in Eff X return World -> X * World with
  | LOGIND_RUNNING => fun w =>
      (hd false (logind w),
       {| logind := tl (logind w); settings := settings w;
          on_signal := on_signal w; secret_service := secret_service w;
          collections := collections w; lock_reply := lock_reply w;
          keyring_reply := keyring_reply w; bus := bus w;
          login1_reply := login1_reply w |})
  | g_settings_get_boolean key => fun w => (settings w key, w)
  | secret_service_get_sync => fun w => (secret_service w, w)
  | secret_service_get_collections _ => fun w => (collections w, w)
  | secret_service_lock_sync _ _ => fun w => (lock_reply w, w)
  | gnome_keyring_lock_all_sync => fun w => (keyring_reply w, w)
  | gpm_networkmanager_sleep => fun w => (tt, w)
  | gpm_networkmanager_wake => fun w => (tt, w)
  | g_signal_emit sig a => fun w =>
      (tt,
       {| logind := logind w; settings := on_signal w sig a (settings w);
          on_signal := on_signal w; secret_service := secret_service w;
          collections := collections w; lock_reply := lock_reply w;
          keyring_reply := keyring_reply w; bus := bus w;
          login1_reply := login1_reply w |})
  | g_dbus_proxy_new_for_bus_sync => fun w => (bus w, w)
  | g_dbus_proxy_call_sync _ method _ => fun w => (login1_reply w method, w)
  | g_debug _ => fun w => (tt, w)
  | g_warning _ => fun w => (tt, w)
  end.

Definition libsecret_only : BuildConfig :=
  {| WITH_LIBSECRET := true; WITH_KEYRING := false |}.
Definition keyring_only : BuildConfig :=
  {| WITH_LIBSECRET := false; WITH_KEYRING := true |}.

Definition inert : Signal -> GpmControlAction ->
                   (SettingsKey -> bool) -> SettingsKey -> bool :=
  fun _ _ st => st.

(** Everything works: logind is there, every service answers. *)
Definition healthy (st : SettingsKey -> bool) : World :=
  {| logind := [true; true]; settings := st; on_signal := inert;
     secret_service := inr 7; collections := [1; 2];
     lock_reply := inr 2%Z; keyring_reply := GNOME_KEYRING_RESULT_OK;
     bus := inr 3; login1_reply := fun _ => inr 0 |}.

Definition all_on : SettingsKey -> bool := fun _ => true.
Definition all_off : SettingsKey -> bool := fun _ => false.

(** ** Reading traces *)

(** Calls to the credential stores (libsecret, gnome-keyring). *)
Definition is_credential_lock (ev : Event) : bool :=
  match ev with
  | EvSecretGet _ | EvSecretCollections _ _ | EvSecretLock _ _ _
  | EvKeyringLockAll _ => true
  | _ => false
  end.

Definition is_network (ev : Event) : bool :=
  match ev with EvNmSleep | EvNmWake => true | _ => false end.

Definition is_broadcast (ev : Event) : bool :=
  match ev with EvSignal _ _ => true | _ => false end.

(** D-Bus traffic to org.freedesktop.login1: connecting and calling. *)
Definition is_login1 (ev : Event) : bool :=
  match ev with EvProxyNew _ | EvProxyCall _ _ _ _ => true | _ => false end.

Definition is_privileged_call (ev : Event) : bool :=
  match ev with EvProxyCall _ _ _ _ => true | _ => false end.

Definition is_log (ev : Event) : bool :=
  match ev with EvDebug _ | EvWarning _ => true | _ => false end.

(** What the spec counts as a side effect of an operation; the
    availability probe, settings reads and log lines are not. *)
Definition side_effect (ev : Event) : bool :=
  is_credential_lock ev || is_network ev || is_broadcast ev || is_login1 ev.

(** Broadcasts and privileged calls, the events claim C2 orders. *)
Definition milestone (ev : Event) : bool :=
  is_broadcast ev || is_privileged_call ev.

(** The control skeleton of a trace: probes, reads of the network
    setting, network actions, broadcasts and login1 traffic.  Reads of
    the two keyring keys, credential-store calls and log lines are
    dropped. *)
Definition is_control (ev : Event) : bool :=
  match ev with
  | EvLogindRunning _ | EvSettingsGet GPM_SETTINGS_NETWORKMANAGER_SLEEP _
  | EvNmSleep | EvNmWake | EvSignal _ _ | EvProxyNew _
  | EvProxyCall _ _ _ _ => true
  | _ => false
  end.

Definition control_view (t : list Event) : list Event :=
  List.filter is_control t.

(** Replies to the successive availability probes. *)
Definition probes (t : list Event) : list bool :=
  flat_map (fun ev => match ev with EvLogindRunning b => [b] | _ => [] end) t.

(** Values returned by the successive reads of [key]. *)
Definition SettingsKey_eqb (a b : SettingsKey) : bool :=
  match a, b with
  | GPM_SETTINGS_LOCK_KEYRING_SUSPEND, GPM_SETTINGS_LOCK_KEYRING_SUSPEND
  | GPM_SETTINGS_LOCK_KEYRING_HIBERNATE, GPM_SETTINGS_LOCK_KEYRING_HIBERNATE
  | GPM_SETTINGS_NETWORKMANAGER_SLEEP, GPM_SETTINGS_NETWORKMANAGER_SLEEP
    => true
  | _, _ => false
  end.

Definition reads (key : SettingsKey) (t : list Event) : list bool :=
  flat_map (fun ev => match ev with
                      | EvSettingsGet k b =>
                          if SettingsKey_eqb k key then [b] else []
                      | _ => []
                      end) t.

(** Errors reported by the secret service through [error]. *)
Definition secret_errors (t : list Event) : list GError :=
  flat_map (fun ev => match ev with
                      | EvSecretGet (inl e) => [e]
                      | EvSecretLock _ _ (inl e) => [e]
                      | _ => []
                      end) t.

(** ** The eight steps of a transition, as a grammar of control skeletons *)

Definition pre_sleep (nm_sleep : bool) (rest : list Event) : list Event :=
  if nm_sleep then EvNmSleep :: rest else rest.

Definition post_wake (nm_sleep : bool) : list Event :=
  if nm_sleep then [EvNmWake] else [].

Inductive transition_shape (action : GpmControlAction)
  : gboolean -> list Event -> Prop :=
| shape_unavailable :
    transition_shape action FALSE [EvLogindRunning false]
| shape_recheck_failed b1 b2 :
    transition_shape action FALSE
      (EvLogindRunning true
       :: EvSettingsGet GPM_SETTINGS_NETWORKMANAGER_SLEEP b1
       :: pre_sleep b1
            (EvSignal SLEEP action
             :: EvLogindRunning false
             :: EvSignal RESUME action
             :: EvSettingsGet GPM_SETTINGS_NETWORKMANAGER_SLEEP b2
             :: post_wake b2))
| shape_refused b1 e :
    transition_shape action FALSE
      (EvLogindRunning true
       :: EvSettingsGet GPM_SETTINGS_NETWORKMANAGER_SLEEP b1
       :: pre_sleep b1
            [EvSignal SLEEP action; EvLogindRunning true;
             EvProxyNew (inl e)])
| shape_attempted b1 b2 p r :
    transition_shape action TRUE
      (EvLogindRunning true
       :: EvSettingsGet GPM_SETTINGS_NETWORKMANAGER_SLEEP b1
       :: pre_sleep b1
            (EvSignal SLEEP action
             :: EvLogindRunning true
             :: EvProxyNew (inr p)
             :: EvProxyCall p (login1_method action) false r
             :: EvSignal RESUME action
             :: EvSettingsGet GPM_SETTINGS_NETWORKMANAGER_SLEEP b2
             :: post_wake b2)).

(** ** Advisory events

    Calls to the credential stores and log lines: what a failure of the
    credential-lock step can add to or remove from a trace. *)
Definition advisory (ev : Event) : bool := is_credential_lock ev || is_log ev.

Definition advisory_eff {X} (e : Eff X) : bool :=
  match e with
  | secret_service_get_sync | secret_service_get_collections _
  | secret_service_lock_sync _ _ | gnome_keyring_lock_all_sync
  | g_debug _ | g_warning _ => true
  | _ => false
  end.

Definition essential (t : list Event) : list Event :=
  List.filter (fun ev => negb (advisory ev)) t.

(** Two programs that differ in advisory calls only: they make the same
    other calls in the same order, and on equal replies end in results
    related by [Q]. *)
Inductive sim {A} (Q : A -> A -> Prop) : Prog A -> Prog A -> Prop :=
| sim_ret a1 a2 : Q a1 a2 -> sim Q (Ret a1) (Ret a2)
| sim_sync {X} (e : Eff X) k1 k2 :
    advisory_eff e = false ->
    (forall x, sim Q (k1 x) (k2 x)) ->
    sim Q (Vis e k1) (Vis e k2)
| sim_left {X} (e : Eff X) k1 p2 :
    advisory_eff e = true ->
    (forall x, sim Q (k1 x) p2) ->
    sim Q (Vis e k1) p2
| sim_right {X} (e : Eff X) p1 k2 :
    advisory_eff e = true ->
    (forall x, sim Q p1 (k2 x)) ->
    sim Q p1 (Vis e k2).

(** Scripted worlds that agree on everything but the credential stores. *)
Definition same_but_credentials (w1 w2 : World) : Prop :=
  logind w1 = logind w2 /\ settings w1 = settings w2 /\
  on_signal w1 = on_signal w2 /\ bus w1 = bus w2 /\
  login1_reply w1 = login1_reply w2.

(** ** Concrete inputs *)

Definition dbus_down : GError := {| message := "could not connect" |}.
Definition inhibited : GError := {| message := "operation inhibited" |}.
Definition no_secrets : GError := {| message := "secret service absent" |}.

(** logind is not there when the operation starts. *)
Definition unavailable (st : SettingsKey -> bool) : World :=
  {| logind := [false]; settings := st; on_signal := inert;
     secret_service := inr 7; collections := [1; 2];
     lock_reply := inr 2%Z; keyring_reply := GNOME_KEYRING_RESULT_OK;
     bus := inr 3; login1_reply := fun _ => inr 0 |}.

(** logind goes away between the first and the second probe. *)
Definition vanishing (st : SettingsKey -> bool) : World :=
  {| logind := [true; false]; settings := st; on_signal := inert;
     secret_service := inr 7; collections := [1; 2];
     lock_reply := inr 2%Z; keyring_reply := GNOME_KEYRING_RESULT_OK;
     bus := inr 3; login1_reply := fun _ => inr 0 |}.

(** logind is there but the system bus refuses the connection. *)
Definition refused (st : SettingsKey -> bool) : World :=
  {| logind := [true; true]; settings := st; on_signal := inert;
     secret_service := inr 7; collections := [1; 2];
     lock_reply := inr 2%Z; keyring_reply := GNOME_KEYRING_RESULT_OK;
     bus := inl dbus_down; login1_reply := fun _ => inr 0 |}.

(** logind answers every method with an error reply. *)
Definition inhibiting (st : SettingsKey -> bool) : World :=
  {| logind := [true; true]; settings := st; on_signal := inert;
     secret_service := inr 7; collections := [1; 2];
     lock_reply := inr 2%Z; keyring_reply := GNOME_KEYRING_RESULT_OK;
     bus := inr 3; login1_reply := fun _ => inl inhibited |}.

(** The secret service cannot be reached. *)
Definition secrets_down (st : SettingsKey -> bool) : World :=
  {| logind := [true; true]; settings := st; on_signal := inert;
     secret_service := inl no_secrets; collections := [];
     lock_reply := inl no_secrets;
     keyring_reply := GNOME_KEYRING_RESULT_FAILED 1;
     bus := inr 3; login1_reply := fun _ => inr 0 |}.

(** A handler of the sleep signal switches the network setting on. *)
Definition enable_on_sleep : Signal -> GpmControlAction ->
    (SettingsKey -> bool) -> SettingsKey -> bool :=
  fun sig _ st key =>
    match sig, key with
    | SLEEP, GPM_SETTINGS_NETWORKMANAGER_SLEEP => true
    | _, _ => st key
    end.

Definition toggling : World :=
  {| logind := [true; true]; settings := all_off;
     on_signal := enable_on_sleep;
     secret_service := inr 7; collections := [1; 2];
     lock_reply := inr 2%Z; keyring_reply := GNOME_KEYRING_RESULT_OK;
     bus := inr 3; login1_reply := fun _ => inr 0 |}.

(** Lock the keyring on hibernate, not on suspend. *)
Definition lock_on_hibernate_only : SettingsKey -> bool :=
  fun key =>
    match key with
    | GPM_SETTINGS_LOCK_KEYRING_HIBERNATE => true
    | _ => false
    end.

(** Lock the keyring on suspend, not on hibernate. *)
Definition lock_on_suspend_only : SettingsKey -> bool :=
  fun key =>
    match key with
    | GPM_SETTINGS_LOCK_KEYRING_SUSPEND => true
    | _ => false
    end.

(** ** Claims of the specification that the code does not meet as worded *)

Definition reply_ok {A} (r : GError + A) : bool :=
  match r with inl _ => false | inr _ => true end.

(** Step 5 failed at the transport or availability layer: the
    connection was refused, or the second probe said no. *)
Definition step5_failed (t : list Event) : Prop :=
  (exists e, In (EvProxyNew (inl e)) t) \/ probes t = [true; false].

(** C5 as worded: after any such failure the operation returns failure
    and "resumed" is not broadcast. *)
Definition resume_suppressed_on_step5_failure : Prop :=
  forall (S : Type) (h : Handler S) (s : S) action cfg error,
    let r := run h (gpm_control_transition action cfg error) s in
    step5_failed (trace_of r) ->
    (result_of r).1 = FALSE /\ ~ In (EvSignal RESUME action) (trace_of r).

(** C7 as worded. *)
Definition shutdown_always_calls_poweroff : Prop :=
  forall (S : Type) (h : Handler S) (s : S) error,
    let r := run h (gpm_control_shutdown error) s in
    let t := trace_of r in
    (probes t = [false] ->
     (result_of r).1 = FALSE /\ List.filter side_effect t = []) /\
    (probes t = [true] ->
     exists p reply,
       List.filter is_privileged_call t
       = [EvProxyCall p "PowerOff" false reply] /\
       (result_of r).1 = reply_ok reply) /\
    List.filter is_broadcast t = [].

(** C8 as worded, on a scripted world [w] whose network setting at the
    time of the call is [settings w GPM_SETTINGS_NETWORKMANAGER_SLEEP]. *)
Definition quiesce_follows_setting (action : GpmControlAction)
    (cfg : BuildConfig) (error : ErrorLoc) (w : World) : Prop :=
  let t := trace_of (run world_handler
                       (gpm_control_transition action cfg error) w) in
  (In EvNmSleep t <-> settings w GPM_SETTINGS_NETWORKMANAGER_SLEEP = true) /\
  (In EvNmWake t <-> In EvNmSleep t).

(** ** The singleton ([gpm_control_object], [gpm_control_new])

    GObject reference counting as the GObject manual gives it: an object
    is created with one reference, [g_object_unref] on the last reference
    finalizes it, and finalization writes NULL into every location
    registered with [g_object_add_weak_pointer].  Objects are named by
    their allocation serial, which is never reused.  The only location
    ever registered is [&gpm_control_object]. *)
Record GObject := {
  ref_count : nat;
  weak_pointer : bool   (* is [&gpm_control_object] registered? *)
}.

Record Process := {
  heap : gmap positive GObject;      (* the live GpmControl instances *)
  next_serial : positive;
  gpm_control_object : option positive  (* the static gpointer, line 60 *)
}.

Definition boot : Process :=
  {| heap := ∅; next_serial := 1%positive; gpm_control_object := None |}.

Definition g_object_new (p : Process) : positive * Process :=
  let a := next_serial p in
  (a, {| heap := <[a := {| ref_count := 1; weak_pointer := false |}]> (heap p);
         next_serial := Pos.succ a;
         gpm_control_object := gpm_control_object p |}).

Definition g_object_add_weak_pointer (a : positive) (p : Process) : Process :=
  {| heap := alter (fun o => {| ref_count := ref_count o;
                                weak_pointer := true |}) a (heap p);
     next_serial := next_serial p;
     gpm_control_object := gpm_control_object p |}.

(** [None]: the object is not live (undefined behaviour in C). *)
Definition g_object_ref (a : positive) (p : Process) : option Process :=
  match heap p !! a with
  | None => None
  | Some o =>
      Some {| heap := <[a := {| ref_count := Datatypes.S (ref_count o);
                                weak_pointer := weak_pointer o |}]> (heap p);
              next_serial := next_serial p;
              gpm_control_object := gpm_control_object p |}
  end.

Definition g_object_unref (a : positive) (p : Process) : option Process :=
  match heap p !! a with
  | None => None
  | Some o =>
      match ref_count o with
      | 0 => None
      | 1 =>
          (* last reference: gpm_control_finalize, weak pointers cleared *)
          Some {| heap := delete a (heap p);
                  next_serial := next_serial p;
                  gpm_control_object :=
                    if weak_pointer o then None else gpm_control_object p |}
      | Datatypes.S n =>
          Some {| heap := <[a := {| ref_count := n;
                                    weak_pointer := weak_pointer o |}]> (heap p);
                  next_serial := next_serial p;
                  gpm_control_object := gpm_control_object p |}
      end
  end.

(** [gpm_control_new] (lines 387-395) *)
Definition gpm_control_new (p : Process) : option (positive * Process) :=
  match gpm_control_object p with
  | Some a =>
      p' ← g_object_ref a p;
      Some (a, p')
  | None =>
      let '(a, p1) := g_object_new p in
      let p2 := {| heap := heap p1; next_serial := next_serial p1;
                   gpm_control_object := Some a |} in
      Some (a, g_object_add_weak_pointer a p2)
  end.

(** What the rest of the program does with the controller. *)
Inductive Request :=
| Construct                    (* gpm_control_new () *)
| Retain (a : positive)        (* g_object_ref *)
| Release (a : positive).      (* g_object_unref *)

Definition serve (r : Request) (p : Process) : option Process :=
  match r with
  | Construct => snd <$> gpm_control_new p
  | Retain a => g_object_ref a p
  | Release a => g_object_unref a p
  end.

Fixpoint serve_all (rs : list Request) (p : Process) : option Process :=
  match rs with
  | [] => Some p
  | r :: rs' =>
      match serve r p with
      | Some p' => serve_all rs' p'
      | None => None
      end
  end.

Definition live (p : Process) (a : positive) : Prop := is_Some (heap p !! a).

(** The invariant of the singleton: every serial in use is below the next
    one, and the heap holds exactly the instance the static pointer names,
    registered as a weak pointer and referenced at least once. *)
Definition singleton_inv (p : Process) : Prop :=
  (forall a, live p a -> (a < next_serial p)%positive) /\
  match gpm_control_object p with
  | None => heap p = ∅
  | Some a =>
      exists o, heap p = {[a := o]} /\ weak_pointer o = true /\
                (0 < ref_count o)%nat
  end.


(** The process after two constructions, two releases and one more
    construction: the first instance is gone, the second is live. *)
Definition restarted : Process :=
  {| heap := {[2%positive := {| ref_count := 1; weak_pointer := true |}]};
     next_serial := 3%positive;
     gpm_control_object := Some 2%positive |}.

(** ** Counting calls *)

Definition Signal_eqb (a b : Signal) : bool :=
  match a, b with
  | RESUME, RESUME | SLEEP, SLEEP => true
  | _, _ => false
  end.

Definition is_signal (sig : Signal) (ev : Event) : bool :=
  match ev with EvSignal s _ => Signal_eqb s sig | _ => false end.

Definition is_probe (ev : Event) : bool :=
  match ev with EvLogindRunning _ => true | _ => false end.

Definition is_proxy_new (ev : Event) : bool :=
  match ev with EvProxyNew _ => true | _ => false end.

Definition is_secret_get (ev : Event) : bool :=
  match ev with EvSecretGet _ => true | _ => false end.

Definition is_secret_collections (ev : Event) : bool :=
  match ev with EvSecretCollections _ _ => true | _ => false end.

Definition is_secret_lock (ev : Event) : bool :=
  match ev with EvSecretLock _ _ _ => true | _ => false end.

Definition is_keyring_lock (ev : Event) : bool :=
  match ev with EvKeyringLockAll _ => true | _ => false end.

Definition is_nm_sleep (ev : Event) : bool :=
  match ev with EvNmSleep => true | _ => false end.

Definition is_nm_wake (ev : Event) : bool :=
  match ev with EvNmWake => true | _ => false end.

Definition occurrences (P : Event -> bool) (t : list Event) : nat :=
  length (List.filter P t).

(** The calls a transition makes at most once. *)
Definition single_shot : list (Event -> bool) :=
  [is_proxy_new; is_privileged_call; is_signal SLEEP; is_signal RESUME;
   is_nm_sleep; is_nm_wake; is_secret_get; is_secret_collections;
   is_secret_lock; is_keyring_lock].

(** Everything after the credential-store calls, among the side effects. *)
Definition after_credentials (ev : Event) : bool :=
  is_network ev || is_broadcast ev || is_login1 ev.

(** ** [gpm_control_error_quark] (lines 68-72)

    GLib's quark registry is a table of interned strings; the quark of a
    string is its position, counted from 1.  [g_quark_from_static_string]
    returns the quark of a string it knows and registers the others. *)
Definition GQuark := nat.

Fixpoint quark_index (str : string) (table : list string) : option nat :=
  match table with
  | [] => None
  | x :: rest =>
      if String.eqb x str then Some 0%nat
      else option_map Datatypes.S (quark_index str rest)
  end.

Definition g_quark_from_static_string (str : string) (table : list string)
  : GQuark * list string :=
  match quark_index str table with
  | Some i => (Datatypes.S i, table)
  | None => (Datatypes.S (length table), table ++ [str])
  end.

(** GLib's [g_quark_to_string]; quark 0 has no string. *)
Definition g_quark_to_string (q : GQuark) (table : list string)
  : option string :=
  match q with
  | 0%nat => None
  | Datatypes.S i => nth_error table i
  end.

Record QuarkState := {
  registry : list string;     (* GLib's table *)
  quark : GQuark              (* [static GQuark quark = 0] *)
}.

Definition gpm_control_error_quark (st : QuarkState) : GQuark * QuarkState :=
  if Nat.eqb (quark st) 0 then
    let '(q, table) :=
      g_quark_from_static_string "gpm_control_error" (registry st) in
    (q, {| registry := table; quark := q |})
  else (quark st, st).

(** What else happens to the registry: other code interns other strings. *)
Inductive QuarkRequest :=
| ErrorQuark                       (* gpm_control_error_quark () *)
| Intern (str : string).           (* g_quark_from_static_string elsewhere *)

Definition quark_serve (r : QuarkRequest) (st : QuarkState) : QuarkState :=
  match r with
  | ErrorQuark => (gpm_control_error_quark st).2
  | Intern str =>
      {| registry := (g_quark_from_static_string str (registry st)).2;
         quark := quark st |}
  end.

Definition quark_boot (table : list string) : QuarkState :=
  {| registry := table; quark := 0 |}.

(** The at-most-once check of a trace, as a boolean. *)
Definition calls_once_b (t : list Event) : bool :=
  (occurrences is_probe t <=? 2)%nat
  && forallb (fun P => (occurrences P t <=? 1)%nat) single_shot
  && forallb (fun key => (length (reads key t) <=? 2)%nat)
       [GPM_SETTINGS_LOCK_KEYRING_SUSPEND;
        GPM_SETTINGS_LOCK_KEYRING_HIBERNATE;
        GPM_SETTINGS_NETWORKMANAGER_SLEEP].

Definition quark_serve_all (rs : list QuarkRequest) (st : QuarkState)
  : QuarkState :=
  fold_left (fun st r => quark_serve r st) rs st.

(** The cache is empty or holds the registry's quark of the domain. *)
Definition quark_inv (st : QuarkState) : Prop :=
  quark st = 0%nat \/
  quark_index "gpm_control_error" (registry st) = Some (Nat.pred (quark st)) /\
  quark st <> 0%nat.

(** ** Failures and their warnings *)

(** A reply the code treats as a failure, with the warning it logs. *)
Definition warning_for (ev : Event) : option string :=
  match ev with
  | EvSecretGet (inl _) => Some "failed to connect to secret service"
  | EvSecretCollections _ [] => Some "failed to get secret collections"
  | EvSecretLock _ _ (inl _) => Some "could not lock keyring"
  | EvSecretLock _ _ (inr n) =>
      if (n <=? 0)%Z then Some "could not lock keyring" else None
  | EvKeyringLockAll (GNOME_KEYRING_RESULT_FAILED _) =>
      Some "could not lock keyring"
  | EvProxyNew (inl e) => Some ("Error connecting to dbus - " ++ message e)%string
  | EvProxyCall _ _ _ (inl e) => Some ("Error in dbus - " ++ message e)%string
  | _ => None
  end.

Definition is_warning (ev : Event) : bool :=
  match ev with EvWarning _ => true | _ => false end.

(** The trace without its warnings, with the due warning put after every
    failed reply. *)
Definition with_due_warnings (t : list Event) : list Event :=
  flat_map (fun ev =>
              if is_warning ev then []
              else match warning_for ev with
                   | Some msg => [ev; EvWarning msg]
                   | None => [ev]
                   end) t.

(** ** The process entry point (src/gpm-main.c)

    [main], [gpm_object_register] and the four callbacks.  A call to the
    outside is a [MainCall]; [reply] gives the type of what comes back.
    No call that has a reply is made twice with the same arguments in one
    run, so the environment is a function from calls to replies.  Log
    messages are their format strings (GPM_NAME, VERSION and the other
    macros they are filled with are not under src/).  [g_error] logs at
    the fatal level: GLib aborts the process, nothing after it runs. *)
Module Main.

Inductive DBusBusType := DBUS_BUS_SESSION | DBUS_BUS_SYSTEM.

(** The three flags [g_option_context_parse] fills in (all start FALSE). *)
Record Options := {
  version : bool;
  timed_exit : bool;
  immediate_exit : bool
}.

(** What [dbus_g_proxy_call (bus_proxy, "RequestName", &error, ...)]
    leaves behind: its return value, [error], and the out argument. *)
Record RequestNameReply := {
  call_ret : bool;
  call_error : option GError;
  request_name_result : nat
}.

(** dbus-shared.h *)
Definition DBUS_REQUEST_NAME_REPLY_PRIMARY_OWNER : nat := 1.
Definition DBUS_REQUEST_NAME_REPLY_IN_QUEUE : nat := 2.

(** The functions handed to GLib: the handlers of the session client's
    signals (G_CALLBACK) and the timer function (GSourceFunc). *)
Inductive SessionCallback :=
| Cb_gpm_main_stop
| Cb_gpm_main_query_end_session
| Cb_gpm_main_end_session.

Inductive SourceFunc := Cb_timed_exit.

Definition Handle := nat.

(** The line feed the C sources write as backslash n: character 10. *)
Definition LF : string :=
  String (Ascii.Ascii false true false true false false false false)
    EmptyString.

Inductive MainCall :=
| setlocale
| bindtextdomain
| bind_textdomain_codeset
| textdomain
| dbus_g_thread_init
| g_option_context_new
| g_option_context_add_main_entries (context : Handle)
| g_option_context_set_translation_domain (context : Handle)
| g_option_context_set_summary (context : Handle)
| g_option_context_parse (context : Handle) (argv : list string)
| g_print (format : string)
| gtk_init
| g_debug (format : string)
| g_warning (format : string)
| g_error_free
| dbus_g_bus_get (bus : DBusBusType)
| gtk_icon_theme_get_default
| gtk_icon_theme_append_search_path (theme : Handle)
| g_main_loop_new
| gpm_session_new
| g_signal_connect (instance : Handle) (signal : string)
    (cb : SessionCallback) (data : Handle)
| getenv (name : string)
| gpm_session_register_client (session : Handle) (app_id : string)
    (client_startup_id : option string)
| gpm_manager_new
| dbus_g_proxy_new_for_name (connection : Handle)
(* "RequestName" with GPM_DBUS_SERVICE and flags 0 *)
| dbus_g_proxy_call_RequestName (proxy : Handle)
| dbus_g_object_type_install_info
| dbus_g_error_domain_register
(* at GPM_DBUS_PATH *)
| dbus_g_connection_register_g_object (connection : Handle) (object : Handle)
| dbus_g_connection_get_connection (connection : Handle)
(* DBUS_NAME_FLAG_REPLACE_EXISTING, no error slot *)
| dbus_bus_request_name (connection : Handle) (name : string)
| g_timeout_add_seconds (interval : nat) (function : SourceFunc)
    (data : Handle)
| g_source_set_name_by_id (id : nat) (name : string)
| g_main_loop_run (loop : Handle)
| g_main_loop_quit (loop : Handle)
| g_main_loop_unref (loop : Handle)
| g_object_unref (object : Handle)
| g_option_context_free (context : Handle)
| gpm_session_end_session_response (session : Handle) (is_okay : bool).

Definition reply (c : MainCall) : Type :=
  match c with
  | g_option_context_new | gtk_icon_theme_get_default | g_main_loop_new
  | gpm_session_new | gpm_manager_new | dbus_g_proxy_new_for_name _
  | dbus_g_connection_get_connection _ => Handle
  | g_option_context_parse _ _ => Options
  | dbus_g_bus_get _ => (GError + Handle)%type
  | getenv _ => option string
  | dbus_g_proxy_call_RequestName _ => RequestNameReply
  | dbus_bus_request_name _ _ => Z
  | g_timeout_add_seconds _ _ _ => nat
  | _ => unit
  end.

Definition Env := forall c : MainCall, reply c.

Inductive MProg (A : Type) : Type :=
| Return (a : A)
| Do (c : MainCall) (k : reply c -> MProg A)
| g_error (format : string).
Arguments Return {A} a.
Arguments Do {A} c k.
Arguments g_error {A} format.

Fixpoint mprog_bind {A B} (p : MProg A) (f : A -> MProg B) : MProg B :=
  match p with
  | Return a => f a
  | Do c k => Do c (fun x => mprog_bind (k x) f)
  | g_error format => g_error format
  end.

Definition do (c : MainCall) : MProg (reply c) := Do c Return.

Declare Scope main_scope.
Delimit Scope main_scope with main.
Bind Scope main_scope with MProg.
Notation "x <- p ;; k" := (mprog_bind p (fun x => k))
  (at level 100, p at next level, k at level 200, right associativity,
   only parsing) : main_scope.
Notation "p ;; k" := (mprog_bind p (fun _ => k))
  (at level 100, k at level 200, right associativity,
   only parsing) : main_scope.
Local Open Scope main_scope.

Inductive Outcome (A : Type) : Type :=
| Returned (a : A)
| Aborted (format : string).
Arguments Returned {A} a.
Arguments Aborted {A} format.

(** The outcome of a program and the calls it made, in order. *)
Fixpoint mrun {A} (env : Env) (p : MProg A) : Outcome A * list MainCall :=
  match p with
  | Return a => (Returned a, [])
  | Do c k => let '(o, t) := mrun env (k (env c)) in (o, c :: t)
  | g_error format => (Aborted format, [])
  end.

(** [gpm_object_register] (lines 58-95) *)
Definition gpm_object_register (connection object : Handle) : MProg bool :=
  bus_proxy <- do (dbus_g_proxy_new_for_name connection) ;;
  r <- do (dbus_g_proxy_call_RequestName bus_proxy) ;;
  (match call_error r with
   | Some error => do (g_debug "ERROR: %s") ;; do g_error_free
   | None => Return tt
   end) ;;
  if negb (call_ret r) then
    do (g_warning "RequestName failed!") ;;
    Return FALSE
  else
    do (g_object_unref bus_proxy) ;;
    if negb (Nat.eqb (request_name_result r)
               DBUS_REQUEST_NAME_REPLY_PRIMARY_OWNER)
    then Return FALSE
    else
      do dbus_g_object_type_install_info ;;
      do dbus_g_error_domain_register ;;
      do (dbus_g_connection_register_g_object connection object) ;;
      Return TRUE.

(** [timed_exit_cb] (lines 105-108) *)
Definition timed_exit_cb (loop : Handle) : MProg bool :=
  do (g_main_loop_quit loop) ;;
  Return FALSE.

(** [gpm_main_stop_cb] (lines 113-115) *)
Definition gpm_main_stop_cb (session loop : Handle) : MProg unit :=
  do (g_main_loop_quit loop).

(** [gpm_main_query_end_session_cb] (lines 120-124) *)
Definition gpm_main_query_end_session_cb (session : Handle) (flags : nat)
    (loop : Handle) : MProg unit :=
  do (gpm_session_end_session_response session TRUE).

(** [gpm_main_end_session_cb] (lines 129-136) *)
Definition gpm_main_end_session_cb (session : Handle) (flags : nat)
    (loop : Handle) : MProg unit :=
  do (gpm_session_end_session_response session TRUE) ;;
  do (g_main_loop_quit loop).

(** [main] (lines 141-268).  [goto unref_program] is [unref_program]. *)
Definition main (argv : list string) : MProg Z :=
  do setlocale ;;
  do bindtextdomain ;;
  do bind_textdomain_codeset ;;
  do textdomain ;;
  do dbus_g_thread_init ;;
  context <- do g_option_context_new ;;
  do (g_option_context_add_main_entries context) ;;
  do (g_option_context_set_translation_domain context) ;;
  do (g_option_context_set_summary context) ;;
  options <- do (g_option_context_parse context argv) ;;
  let unref_program :=
    do (g_option_context_free context) ;;
    Return 0%Z in
  if version options then
    do (g_print ("Version %s" ++ LF)) ;;
    unref_program
  else
    do dbus_g_thread_init ;;
    do gtk_init ;;
    do (g_debug "MATE %s %s") ;;
    system_connection <- do (dbus_g_bus_get DBUS_BUS_SYSTEM) ;;
    match system_connection with
    | inl error =>
        do (g_warning "%s") ;;
        do g_error_free ;;
        g_error
          ("This program cannot start until you start the dbus system service."
           ++ LF ++
           "It is <b>strongly recommended</b> you reboot your computer after starting this service.")
    | inr system_connection =>
    session_connection <- do (dbus_g_bus_get DBUS_BUS_SESSION) ;;
    match session_connection with
    | inl error =>
        do (g_warning "%s") ;;
        do g_error_free ;;
        g_error
          ("This program cannot start until you start the dbus session service."
           ++ LF ++ LF ++
           "This is usually started automatically in X or mate startup when you start a new session.")
    | inr session_connection =>
    theme <- do gtk_icon_theme_get_default ;;
    do (gtk_icon_theme_append_search_path theme) ;;
    loop <- do g_main_loop_new ;;
    session <- do gpm_session_new ;;
    do (g_signal_connect session "stop" Cb_gpm_main_stop loop) ;;
    do (g_signal_connect session "query-end-session"
          Cb_gpm_main_query_end_session loop) ;;
    do (g_signal_connect session "end-session" Cb_gpm_main_end_session loop) ;;
    startup_id <- do (getenv "DESKTOP_AUTOSTART_ID") ;;
    do (gpm_session_register_client session "mate-power-manager" startup_id) ;;
    manager <- do gpm_manager_new ;;
    registered <- gpm_object_register session_connection manager ;;
    if negb registered then
      g_error "%s is already running in this session."
    else
      connection <- do (dbus_g_connection_get_connection system_connection) ;;
      ret <- do (dbus_bus_request_name connection
                   "org.freedesktop.Policy.Power") ;;
      (if Z.eqb ret (Z.of_nat DBUS_REQUEST_NAME_REPLY_PRIMARY_OWNER) then
         do (g_debug
               "Successfully acquired interface org.freedesktop.Policy.Power.")
       else if Z.eqb ret (Z.of_nat DBUS_REQUEST_NAME_REPLY_IN_QUEUE) then
         do (g_debug "Queued for interface org.freedesktop.Policy.Power.")
       else Return tt) ;;
      (if timed_exit options then
         timer_id <- do (g_timeout_add_seconds 20 Cb_timed_exit loop) ;;
         do (g_source_set_name_by_id timer_id "[GpmMain] timed-exit")
       else Return tt) ;;
      (if negb (immediate_exit options) then do (g_main_loop_run loop)
       else Return tt) ;;
      do (g_main_loop_unref loop) ;;
      do (g_object_unref session) ;;
      do (g_object_unref manager) ;;
      unref_program
    end
    end.

(** ** Calls that do not come back

    [mrun] lets every call return.  In the program some need not:
    [g_main_loop_run] blocks until a callback quits the loop, and
    [gtk_init] or [g_option_context_parse] may end the process
    themselves.  [mrun_to] runs a program in an environment where
    [comes_back] says which calls return; it stops in the first call that
    does not. *)
Inductive Fate (A : Type) : Type :=
| Returns (a : A)
| Aborts (format : string)
| Stays (c : MainCall).
Arguments Returns {A} a.
Arguments Aborts {A} format.
Arguments Stays {A} c.

Fixpoint mrun_to {A} (env : Env) (comes_back : MainCall -> bool)
    (p : MProg A) : Fate A * list MainCall :=
  match p with
  | Return a => (Returns a, [])
  | Do c k =>
      if comes_back c then
        let '(o, t) := mrun_to env comes_back (k (env c)) in (o, c :: t)
      else (Stays c, [c])
  | g_error format => (Aborts format, [])
  end.

Definition fate_of {A} (o : Outcome A) : Fate A :=
  match o with
  | Returned a => Returns a
  | Aborted format => Aborts format
  end.

(** ** Reading a run of [main] *)

Definition options_of (env : Env) (argv : list string) : Options :=
  env (g_option_context_parse (env g_option_context_new) argv).

Definition name_reply (env : Env) (connection : Handle) : RequestNameReply :=
  env (dbus_g_proxy_call_RequestName
         (env (dbus_g_proxy_new_for_name connection))).

(** The RequestName call went through and made us the primary owner. *)
Definition is_primary_owner (r : RequestNameReply) : bool :=
  call_ret r
  && Nat.eqb (request_name_result r) DBUS_REQUEST_NAME_REPLY_PRIMARY_OWNER.

(** A bus cannot be reached, or the name on the session bus is not ours. *)
Definition startup_fails (env : Env) : bool :=
  match env (dbus_g_bus_get DBUS_BUS_SYSTEM) with
  | inl _ => true
  | inr _ =>
      match env (dbus_g_bus_get DBUS_BUS_SESSION) with
      | inl _ => true
      | inr session_connection =>
          negb (is_primary_owner (name_reply env session_connection))
      end
  end.

Definition is_release (c : MainCall) : bool :=
  match c with
  | g_main_loop_unref _ | g_object_unref _ | g_option_context_free _ => true
  | _ => false
  end.

(** Calls that reach D-Bus, GTK, the session manager or the manager. *)
Definition is_startup (c : MainCall) : bool :=
  match c with
  | gtk_init | dbus_g_bus_get _ | gtk_icon_theme_get_default
  | gtk_icon_theme_append_search_path _ | g_main_loop_new | gpm_session_new
  | g_signal_connect _ _ _ _ | gpm_session_register_client _ _ _
  | gpm_manager_new | dbus_g_proxy_new_for_name _
  | dbus_g_proxy_call_RequestName _ | dbus_g_object_type_install_info
  | dbus_g_error_domain_register | dbus_g_connection_register_g_object _ _
  | dbus_g_connection_get_connection _ | dbus_bus_request_name _ _
  | g_timeout_add_seconds _ _ _ | g_source_set_name_by_id _ _
  | g_main_loop_run _ => true
  | _ => false
  end.

(** ** The main loop, as GLib runs it

    [g_main_loop_run] sleeps until something wakes it: the session client
    emits a signal, or a timer is due.  GLib then calls the handlers
    connected to that signal on that instance, in the order they were
    connected (or the timer's function, and removes the timer when the
    function returns FALSE), and [g_main_loop_run] returns once one of them
    has called [g_main_loop_quit] on the loop. *)
Inductive Wakeup :=
| Emitted (instance : Handle) (signal : string) (flags : nat)
| Due (timer : nat).

(** The handlers connected and the timers installed by a run. *)
Definition connections (t : list MainCall)
  : list (Handle * string * SessionCallback * Handle) :=
  flat_map (fun c => match c with
                     | g_signal_connect i sig cb data => [(i, sig, cb, data)]
                     | _ => []
                     end) t.

Definition timers (env : Env) (t : list MainCall)
  : list (nat * SourceFunc * Handle) :=
  flat_map (fun c => match c return list (nat * SourceFunc * Handle) with
                     | g_timeout_add_seconds n f data =>
                         [((env (g_timeout_add_seconds n f data) : nat),
                           f, data)]
                     | _ => []
                     end) t.

(** The C function behind each pointer, called the way GLib calls it. *)
Definition call_handler (cb : SessionCallback) (session : Handle)
    (flags : nat) (data : Handle) : MProg unit :=
  match cb with
  | Cb_gpm_main_stop => gpm_main_stop_cb session data
  | Cb_gpm_main_query_end_session =>
      gpm_main_query_end_session_cb session flags data
  | Cb_gpm_main_end_session => gpm_main_end_session_cb session flags data
  end.

Definition call_source (f : SourceFunc) (data : Handle) : MProg bool :=
  match f with
  | Cb_timed_exit => timed_exit_cb data
  end.

(** One wakeup: the calls made by the callbacks, and the timers left. *)
Definition dispatch (env : Env)
    (conns : list (Handle * string * SessionCallback * Handle))
    (tms : list (nat * SourceFunc * Handle)) (w : Wakeup)
  : list MainCall * list (nat * SourceFunc * Handle) :=
  match w with
  | Emitted instance signal flags =>
      (flat_map (fun '(i, sig, cb, data) =>
                   if Nat.eqb i instance && String.eqb sig signal
                   then (mrun env (call_handler cb instance flags data)).2
                   else []) conns,
       tms)
  | Due id =>
      (flat_map (fun '(i, f, data) =>
                   if Nat.eqb i id then (mrun env (call_source f data)).2
                   else []) tms,
       List.filter (fun '(i, f, data) =>
                      negb (Nat.eqb i id)
                      || match (mrun env (call_source f data)).1 with
                         | Returned keep => keep
                         | Aborted _ => false
                         end) tms)
  end.

Definition quits (loop : Handle) (calls : list MainCall) : bool :=
  existsb (fun c => match c with
                    | g_main_loop_quit l => Nat.eqb l loop
                    | _ => false
                    end) calls.

(** The calls made while the loop runs, and whether it has returned. *)
Fixpoint g_main_loop_run_model (env : Env)
    (conns : list (Handle * string * SessionCallback * Handle))
    (tms : list (nat * SourceFunc * Handle)) (loop : Handle)
    (ws : list Wakeup) : list MainCall * bool :=
  match ws with
  | [] => ([], false)
  | w :: ws' =>
      let '(calls, tms') := dispatch env conns tms w in
      if quits loop calls then (calls, true)
      else
        let '(rest, returned) :=
          g_main_loop_run_model env conns tms' loop ws' in
        (calls ++ rest, returned)
  end.

(** The wakeups a run of the loop gets to handle: up to and including
    the first that satisfies [ending]. *)
Fixpoint handled (ending : Wakeup -> bool) (ws : list Wakeup)
  : list Wakeup :=
  match ws with
  | [] => []
  | w :: ws' => if ending w then [w] else w :: handled ending ws'
  end.

Definition is_response (c : MainCall) : bool :=
  match c with
  | gpm_session_end_session_response _ _ => true
  | _ => false
  end.

Definition is_quit (c : MainCall) : bool :=
  match c with g_main_loop_quit _ => true | _ => false end.

(** The timer [main] installs, if it does. *)
Definition installed_timer (env : Env) (argv : list string) : option nat :=
  if timed_exit (options_of env argv)
  then Some (env (g_timeout_add_seconds 20 Cb_timed_exit
                    (env g_main_loop_new)))
  else None.

(** A stop or end-session signal of our session client, or our timer. *)
Definition ends_loop (session : Handle) (timer : option nat) (w : Wakeup)
  : bool :=
  match w with
  | Emitted i sig _ =>
      Nat.eqb session i
      && (String.eqb "stop" sig || String.eqb "end-session" sig)
  | Due id =>
      match timer with
      | Some t => Nat.eqb t id
      | None => false
      end
  end.

(** A query-end-session or end-session signal of our session client. *)
Definition asks_to_end (session : Handle) (w : Wakeup) : bool :=
  match w with
  | Emitted i sig _ =>
      Nat.eqb session i
      && (String.eqb "query-end-session" sig || String.eqb "end-session" sig)
  | Due _ => false
  end.

(** Replies for a run with the version flag on. *)
Definition version_env : Env := fun c =>
  match c return reply c with
  | g_option_context_new => 1
  | gtk_icon_theme_get_default => 2
  | g_main_loop_new => 3
  | gpm_session_new => 4
  | gpm_manager_new => 5
  | dbus_g_proxy_new_for_name _ => 6
  | dbus_g_connection_get_connection _ => 7
  | g_option_context_parse _ _ =>
      {| version := true; timed_exit := false; immediate_exit := false |}
  | dbus_g_bus_get _ => inr 8
  | getenv _ => None
  | dbus_g_proxy_call_RequestName _ =>
      {| call_ret := true; call_error := None; request_name_result := 1 |}
  | dbus_bus_request_name _ _ => 1%Z
  | g_timeout_add_seconds _ _ _ => 9
  | _ => tt
  end.

(** Replies for a run where everything works, with the timed-exit flag. *)
Definition normal_env : Env := fun c =>
  match c return reply c with
  | g_option_context_new => 1
  | gtk_icon_theme_get_default => 2
  | g_main_loop_new => 3
  | gpm_session_new => 4
  | gpm_manager_new => 5
  | dbus_g_proxy_new_for_name _ => 6
  | dbus_g_connection_get_connection _ => 7
  | g_option_context_parse _ _ =>
      {| version := false; timed_exit := true; immediate_exit := false |}
  | dbus_g_bus_get _ => inr 8
  | getenv _ => None
  | dbus_g_proxy_call_RequestName _ =>
      {| call_ret := true; call_error := None; request_name_result := 1 |}
  | dbus_bus_request_name _ _ => 1%Z
  | g_timeout_add_seconds _ _ _ => 9
  | _ => tt
  end.

End Main.

(** The secret service connects and lists collections but refuses to
    lock them. *)
Definition locking_fails (st : SettingsKey -> bool) : World :=
  {| logind := [true; true]; settings := st; on_signal := inert;
     secret_service := inr 7; collections := [1; 2];
     lock_reply := inl no_secrets;
     keyring_reply := GNOME_KEYRING_RESULT_OK;
     bus := inr 3; login1_reply := fun _ => inr 0 |}.

(** ** Reasoning over every reply

    [all_runs p Q]: whatever the environment answers, the result and the
    trace of [p] satisfy [Q]. *)
Fixpoint all_runs {A} (p : Prog A) (Q : A -> list Event -> Prop) : Prop :=
  match p with
  | Ret a => Q a []
  | Vis e k => forall x, all_runs (k x) (fun a t => Q a (event_of e x :: t))
  end.

Lemma run_all_runs {S A} (h : Handler S) (p : Prog A)
    (Q : A -> list Event -> Prop) :
  all_runs p Q ->
  forall s, Q (result_of (run h p s)) (trace_of (run h p s)).
Proof.
  revert Q. induction p as [a | X e k IH]; intros Q Hall s; simpl in *.
  - exact Hall.
  - destruct (h X e s) as [x s1].
    specialize (IH x _ (Hall x) s1).
    destruct (run h (k x) s1) as [[a s2] t]. exact IH.
Qed.

(** Case analysis on every reply of a concrete operation. *)
Ltac explore :=
  repeat first
    [ progress cbn
    | match goal with
      | |- forall _ : bool, _ => intros []
      | |- forall _ : unit, _ => intros []
      | |- forall _ : sum _ _, _ => intros [?|?]
      | |- forall _ : list _, _ => intros [|? ?]
      | |- forall _ : GnomeKeyringResult, _ => intros [|?]
      | |- context [Z.leb ?n 0] => destruct (Z.leb n 0)
      end ].

Lemma transition_all_shapes action cfg error :
  all_runs (gpm_control_transition action cfg error)
    (fun r t => transition_shape action r.1 (control_view t)).
Proof.
  destruct action, cfg as [[] []]; explore;
    match goal with
    | |- transition_shape ?a _ _ =>
        first [ apply shape_unavailable
              | apply (shape_recheck_failed a true true)
              | apply (shape_recheck_failed a true false)
              | apply (shape_recheck_failed a false true)
              | apply (shape_recheck_failed a false false)
              | apply (shape_refused a true)
              | apply (shape_refused a false)
              | apply (shape_attempted a true true)
              | apply (shape_attempted a true false)
              | apply (shape_attempted a false true)
              | apply (shape_attempted a false false) ]
    end.
Qed.

(** ** Lists of events *)

Lemma filter_sub (P Q : Event -> bool) t :
  (forall ev, P ev = true -> Q ev = true) ->
  List.filter P (List.filter Q t) = List.filter P t.
Proof.
  intros HPQ. induction t as [|ev t IH]; simpl; [reflexivity|].
  destruct (Q ev) eqn:HQ; simpl; destruct (P ev) eqn:HP; try congruence.
  apply HPQ in HP. congruence.
Qed.

Lemma flat_map_filter {B} (f : Event -> list B) (Q : Event -> bool) t :
  (forall ev, Q ev = false -> f ev = []) ->
  flat_map f (List.filter Q t) = flat_map f t.
Proof.
  intros Hf. induction t as [|ev t IH]; simpl; [reflexivity|].
  destruct (Q ev) eqn:HQ; simpl; rewrite IH; [reflexivity|].
  rewrite (Hf ev HQ). reflexivity.
Qed.

Lemma In_control_view ev t :
  is_control ev = true -> In ev t <-> In ev (control_view t).
Proof.
  intros Hc. unfold control_view. rewrite filter_In. tauto.
Qed.

Lemma milestone_control_view t :
  List.filter milestone (control_view t) = List.filter milestone t.
Proof.
  apply filter_sub. intros [] H; first [discriminate H | reflexivity].
Qed.

Lemma login1_control_view t :
  List.filter is_login1 (control_view t) = List.filter is_login1 t.
Proof.
  apply filter_sub. intros [] H; first [discriminate H | reflexivity].
Qed.

Lemma probes_control_view t : probes (control_view t) = probes t.
Proof.
  apply flat_map_filter. intros [] H; first [discriminate H | reflexivity].
Qed.

Lemma reads_network_control_view t :
  reads GPM_SETTINGS_NETWORKMANAGER_SLEEP (control_view t)
  = reads GPM_SETTINGS_NETWORKMANAGER_SLEEP t.
Proof.
  apply flat_map_filter.
  intros [| [] ?| | | | | | | | | | |] H;
    first [discriminate H | reflexivity].
Qed.

(** The first event kept by a filter splits the list. *)
Lemma filter_cons_split (P : Event -> bool) t ev rest :
  List.filter P t = ev :: rest ->
  exists t1 t2, t = t1 ++ ev :: t2 /\ List.filter P t1 = [] /\
                List.filter P t2 = rest.
Proof.
  induction t as [|x t IH]; simpl; [discriminate|].
  destruct (P x) eqn:HP.
  - intros [= -> <-]. exists [], t. auto.
  - intros Hf. destruct (IH Hf) as (t1 & t2 & -> & H1 & H2).
    exists (x :: t1), t2. simpl. rewrite HP. auto.
Qed.

(** Membership in a concrete trace. *)
Ltac in_trace := simpl; solve [repeat first [left; reflexivity | right]].
Ltac not_in_trace H :=
  simpl in H; repeat (destruct H as [H | H]; [discriminate H|]); exact H.

(** ** Every run of a transition follows the grammar *)

Section Runs.
Context {S : Type} (h : Handler S) (s : S).
Variables (action : GpmControlAction) (cfg : BuildConfig) (error : ErrorLoc).

Let r := run h (gpm_control_transition action cfg error) s.

Lemma transition_follows_shape :
  transition_shape action (result_of r).1 (control_view (trace_of r)).
Proof.
  exact (run_all_runs h _ _ (transition_all_shapes action cfg error) s).
Qed.

(** Once the privileged call is in the trace, the run is the attempted
    one: success, and the milestones are sleep, call, resume. *)
Lemma attempted_run p m i reply :
  In (EvProxyCall p m i reply) (trace_of r) ->
  (result_of r).1 = TRUE /\ m = login1_method action /\ i = false /\
  List.filter milestone (trace_of r)
  = [EvSignal SLEEP action; EvProxyCall p m i reply;
     EvSignal RESUME action].
Proof.
  intros Hin. apply In_control_view in Hin; [|reflexivity].
  rewrite <- milestone_control_view.
  destruct transition_follows_shape as [|[] []|[] ?|[] [] ? ?];
    simpl in *; intuition (try discriminate);
    match goal with H : EvProxyCall _ _ _ _ = _ |- _ => inversion H end;
    subst; auto.
Qed.

(** A transition succeeds exactly when the privileged call was
    dispatched. *)
Lemma success_iff_attempted :
  (result_of r).1 = TRUE <->
  exists p m i reply, In (EvProxyCall p m i reply) (trace_of r).
Proof.
  split.
  - intros Hret.
    cut (exists p m i reply,
            In (EvProxyCall p m i reply) (control_view (trace_of r))).
    { intros (p & m & i & reply & Hin). exists p, m, i, reply.
      apply In_control_view; [reflexivity | exact Hin]. }
    destruct transition_follows_shape as [| | |b1 b2 p reply];
      try discriminate Hret.
    exists p, (login1_method action), false, reply.
    destruct b1; in_trace.
  - intros (p & m & i & reply & Hin).
    apply (attempted_run p m i reply Hin).
Qed.

(** A refused connection ends the run before "resumed". *)
Lemma refused_run e :
  In (EvProxyNew (inl e)) (trace_of r) ->
  (result_of r).1 = FALSE /\ probes (trace_of r) = [true; true] /\
  List.filter milestone (trace_of r) = [EvSignal SLEEP action].
Proof.
  intros Hin. apply In_control_view in Hin; [|reflexivity].
  rewrite <- milestone_control_view, <- probes_control_view.
  destruct transition_follows_shape as [|[] []|[] ?|[] [] ? ?];
    simpl in *; intuition (try discriminate).
Qed.

(** A failed re-check skips the login1 traffic, not "resumed". *)
Lemma recheck_failed_run :
  probes (trace_of r) = [true; false] ->
  (result_of r).1 = FALSE /\
  List.filter is_login1 (trace_of r) = [] /\
  List.filter milestone (trace_of r)
  = [EvSignal SLEEP action; EvSignal RESUME action].
Proof.
  rewrite <- milestone_control_view, <- probes_control_view,
    <- login1_control_view.
  destruct transition_follows_shape as [|[] []|[] ?|[] [] ? ?];
    simpl in *; intros; try discriminate; auto.
Qed.
End Runs.

Lemma milestone_In ev t :
  In ev (List.filter milestone t) -> In ev t.
Proof. intros H. apply filter_In in H. tauto. Qed.

(** ** The claims *)

(** C1.  When the login manager is reported unavailable at entry, suspend
    and hibernate return failure, leave the error slot as it was, and the
    only thing they did was the probe: no keyring lock, no network action,
    no broadcast, no login1 traffic. *)
Theorem unavailable_at_entry_no_side_effects
    {S : Type} (h : Handler S) (s : S) action cfg error :
  (h _ LOGIND_RUNNING s).1 = false ->
  let r := run h (gpm_control_transition action cfg error) s in
  result_of r = (FALSE, error) /\
  trace_of r = [EvLogindRunning false] /\
  state_of r = (h _ LOGIND_RUNNING s).2 /\
  List.filter side_effect (trace_of r) = [].
Proof.
  intros Hprobe.
  destruct action; simpl; destruct (h bool LOGIND_RUNNING s) as [running s1];
    simpl in Hprobe; subst running; simpl; auto.
Qed.

Lemma unavailable_at_entry_no_side_effects_witness :
  let r := run world_handler
             (gpm_control_transition GPM_CONTROL_ACTION_HIBERNATE
                {| WITH_LIBSECRET := true; WITH_KEYRING := true |}
                (Some None))
             (unavailable all_on) in
  result_of r = (FALSE, Some None) /\
  trace_of r = [EvLogindRunning false] /\
  state_of r = (world_handler _ LOGIND_RUNNING (unavailable all_on)).2 /\
  List.filter side_effect (trace_of r) = [].
Proof.
  apply (unavailable_at_entry_no_side_effects world_handler
           (unavailable all_on)).
  reflexivity.
Defined.

(** ** The scripted environment, case by case *)

Ltac world_cases :=
  repeat first
    [ progress cbn
    | match goal with
      | |- context [match ?x with _ => _ end] =>
          lazymatch x with
          | context [match _ with _ => _ end] => fail
          | _ => destruct x eqn:?
          end
      end ].

(** With logind there at both probes and the bus connecting, a
    transition succeeds and its milestones are sleep, call, resume. *)
Lemma world_attempt action cfg error (w : World) p rest :
  logind w = true :: true :: rest -> bus w = inr p ->
  let r := run world_handler (gpm_control_transition action cfg error) w in
  (result_of r).1 = TRUE /\
  List.filter milestone (trace_of r)
  = [EvSignal SLEEP action;
     EvProxyCall p (login1_method action) false
       (login1_reply w (login1_method action));
     EvSignal RESUME action].
Proof.
  destruct w as [lg st os ss cols lr kr bs l1]. simpl. intros -> ->.
  destruct action, cfg as [[] []]; world_cases; split; reflexivity.
Qed.

(** What holds of a run, in any environment, whose trace has the
    privileged call. *)
Lemma call_between_broadcasts
    {S : Type} (h : Handler S) (s : S) action cfg error p m i reply :
  let t := trace_of (run h (gpm_control_transition action cfg error) s) in
  In (EvProxyCall p m i reply) t ->
  m = login1_method action /\ i = false /\
  List.filter milestone t
  = [EvSignal SLEEP action; EvProxyCall p m i reply; EvSignal RESUME action] /\
  exists t1 t2 t3 t4,
    t = t1 ++ EvSignal SLEEP action
           :: t2 ++ EvProxyCall p m i reply
           :: t3 ++ EvSignal RESUME action :: t4 /\
    List.filter milestone (t1 ++ t2 ++ t3 ++ t4) = [].
Proof.
  intros t Hin.
  destruct (attempted_run h s action cfg error p m i reply Hin)
    as (_ & Hm & Hi & Hms).
  fold t in Hms. repeat split; auto.
  destruct (filter_cons_split _ _ _ _ Hms) as (t1 & u1 & -> & H1 & Hu1).
  destruct (filter_cons_split _ _ _ _ Hu1) as (t2 & u2 & -> & H2 & Hu2).
  destruct (filter_cons_split _ _ _ _ Hu2) as (t3 & t4 & -> & H3 & H4).
  exists t1, t2, t3, t4. split; [reflexivity|].
  rewrite !List.filter_app, H1, H2, H3, H4. reflexivity.
Qed.

(** C2.  Suspend and hibernate alike.  In any environment: a transition
    that returns success has dispatched the privileged call (Suspend or
    Hibernate, interactive false); and in every transition that dispatches
    it, the broadcasts and privileged calls of the invocation are, in this
    order and each once, "sleep" with the transition kind, the call,
    "resume" with the same kind, whatever the reply to the call was.  Hence
    "sleep" is strictly before the call and "resume" strictly after it.
    And the step is reached: in the scripted environment, whenever logind
    answers both probes and the bus connects, whatever the settings, the
    credential stores and the reply to the call are, the transition
    succeeds with exactly these three milestones. *)
Theorem sleep_before_call_before_resume :
  (forall (S : Type) (h : Handler S) (s : S) action cfg error,
      let r := run h (gpm_control_transition action cfg error) s in
      (result_of r).1 = TRUE ->
      exists p reply,
        In (EvProxyCall p (login1_method action) false reply) (trace_of r)) /\
  (forall (S : Type) (h : Handler S) (s : S) action cfg error p m i reply,
      let t := trace_of (run h (gpm_control_transition action cfg error) s) in
      In (EvProxyCall p m i reply) t ->
      m = login1_method action /\ i = false /\
      List.filter milestone t
      = [EvSignal SLEEP action; EvProxyCall p m i reply;
         EvSignal RESUME action] /\
      exists t1 t2 t3 t4,
        t = t1 ++ EvSignal SLEEP action
               :: t2 ++ EvProxyCall p m i reply
               :: t3 ++ EvSignal RESUME action :: t4 /\
        List.filter milestone (t1 ++ t2 ++ t3 ++ t4) = []) /\
  (forall action cfg error (w : World) p rest,
      logind w = true :: true :: rest -> bus w = inr p ->
      let r := run world_handler (gpm_control_transition action cfg error) w in
      (result_of r).1 = TRUE /\
      List.filter milestone (trace_of r)
      = [EvSignal SLEEP action;
         EvProxyCall p (login1_method action) false
           (login1_reply w (login1_method action));
         EvSignal RESUME action]).
Proof.
  split; [|split].
  - intros S h s action cfg error r Hret.
    destruct (proj1 (success_iff_attempted h s action cfg error) Hret)
      as (p & m & i & reply & Hin).
    destruct (attempted_run h s action cfg error p m i reply Hin)
      as (_ & -> & -> & _).
    exists p, reply. exact Hin.
  - intros S h s action cfg error p m i reply.
    exact (call_between_broadcasts h s action cfg error p m i reply).
  - exact world_attempt.
Qed.

Lemma sleep_before_call_before_resume_witness :
  (let t := trace_of (run world_handler
                        (gpm_control_transition GPM_CONTROL_ACTION_SUSPEND
                           libsecret_only None) (inhibiting all_on)) in
   List.filter milestone t
   = [EvSignal SLEEP GPM_CONTROL_ACTION_SUSPEND;
      EvProxyCall 3 "Suspend" false (inl inhibited);
      EvSignal RESUME GPM_CONTROL_ACTION_SUSPEND]) /\
  (let t := trace_of (run world_handler
                        (gpm_control_transition GPM_CONTROL_ACTION_HIBERNATE
                           libsecret_only None) (inhibiting all_on)) in
   List.filter milestone t
   = [EvSignal SLEEP GPM_CONTROL_ACTION_HIBERNATE;
      EvProxyCall 3 "Hibernate" false (inl inhibited);
      EvSignal RESUME GPM_CONTROL_ACTION_HIBERNATE]) /\
  (let r := run world_handler
              (gpm_control_transition GPM_CONTROL_ACTION_SUSPEND
                 keyring_only (Some None)) (healthy all_on) in
   (result_of r).1 = TRUE /\
   List.filter milestone (trace_of r)
   = [EvSignal SLEEP GPM_CONTROL_ACTION_SUSPEND;
      EvProxyCall 3 "Suspend" false (inr 0);
      EvSignal RESUME GPM_CONTROL_ACTION_SUSPEND]) /\
  (let r := run world_handler
              (gpm_control_transition GPM_CONTROL_ACTION_HIBERNATE
                 keyring_only (Some None)) (healthy all_on) in
   (result_of r).1 = TRUE /\
   List.filter milestone (trace_of r)
   = [EvSignal SLEEP GPM_CONTROL_ACTION_HIBERNATE;
      EvProxyCall 3 "Hibernate" false (inr 0);
      EvSignal RESUME GPM_CONTROL_ACTION_HIBERNATE]).
Proof.
  pose proof sleep_before_call_before_resume as (_ & Hany & Hworld).
  split; [|split; [|split]].
  - refine (proj1 (proj2 (proj2
      (Hany World world_handler (inhibiting all_on)
         GPM_CONTROL_ACTION_SUSPEND libsecret_only None
         3 "Suspend" false (inl inhibited) _)))).
    in_trace.
  - refine (proj1 (proj2 (proj2
      (Hany World world_handler (inhibiting all_on)
         GPM_CONTROL_ACTION_HIBERNATE libsecret_only None
         3 "Hibernate" false (inl inhibited) _)))).
    in_trace.
  - apply (Hworld GPM_CONTROL_ACTION_SUSPEND keyring_only (Some None)
             (healthy all_on) 3 []); reflexivity.
  - apply (Hworld GPM_CONTROL_ACTION_HIBERNATE keyring_only (Some None)
             (healthy all_on) 3 []); reflexivity.
Defined.

(** What holds of a run, in any environment, whose privileged call got
    an error reply. *)
Lemma error_reply_run
    {S : Type} (h : Handler S) (s : S) action cfg error p m i e :
  let r := run h (gpm_control_transition action cfg error) s in
  In (EvProxyCall p m i (inl e)) (trace_of r) ->
  (result_of r).1 = TRUE /\
  exists t1 t2,
    trace_of r = t1 ++ EvProxyCall p m i (inl e) :: t2 /\
    In (EvSignal RESUME action) t2.
Proof.
  intros r Hin.
  destruct (attempted_run h s action cfg error p m i (inl e) Hin)
    as (Hret & _ & _ & Hms).
  split; [exact Hret|]. fold r in Hms.
  destruct (filter_cons_split _ _ _ _ Hms) as (t1 & u1 & Ht & _ & Hu1).
  destruct (filter_cons_split _ _ _ _ Hu1) as (t2 & u2 & -> & _ & Hu2).
  exists (t1 ++ EvSignal SLEEP action :: t2), u2. split.
  - rewrite Ht, <- app_assoc. reflexivity.
  - apply milestone_In. rewrite Hu2. left. reflexivity.
Qed.

(** C4.  Suspend and hibernate alike.  In any environment, when the
    privileged call comes back with an error reply (the connection itself
    was established), the operation returns success and "resume" is
    broadcast, after the call.  And this happens: in the scripted
    environment, whenever logind answers both probes, the bus connects and
    login1 replies to the method with an error, whatever the settings and
    the credential stores, the operation returns success, the call is in
    the trace with that error reply, and "resume" is broadcast after it. *)
Theorem remote_error_still_succeeds :
  (forall (S : Type) (h : Handler S) (s : S) action cfg error p m i e,
      let r := run h (gpm_control_transition action cfg error) s in
      In (EvProxyCall p m i (inl e)) (trace_of r) ->
      (result_of r).1 = TRUE /\
      exists t1 t2,
        trace_of r = t1 ++ EvProxyCall p m i (inl e) :: t2 /\
        In (EvSignal RESUME action) t2) /\
  (forall action cfg error (w : World) p e rest,
      logind w = true :: true :: rest -> bus w = inr p ->
      login1_reply w (login1_method action) = inl e ->
      let r := run world_handler (gpm_control_transition action cfg error) w in
      (result_of r).1 = TRUE /\
      exists t1 t2,
        trace_of r
        = t1 ++ EvProxyCall p (login1_method action) false (inl e) :: t2 /\
        In (EvSignal RESUME action) t2).
Proof.
  split.
  - intros S h s action cfg error p m i e.
    exact (error_reply_run h s action cfg error p m i e).
  - intros action cfg error w p e rest Hlg Hbus Hreply r.
    destruct (world_attempt action cfg error w p rest Hlg Hbus)
      as [_ Hms].
    fold r in Hms. rewrite Hreply in Hms.
    apply (error_reply_run world_handler w action cfg error).
    apply milestone_In. fold r. rewrite Hms. right. left. reflexivity.
Qed.

Lemma remote_error_still_succeeds_witness :
  (let r := run world_handler
              (gpm_control_transition GPM_CONTROL_ACTION_SUSPEND
                 libsecret_only (Some None)) (inhibiting all_on) in
   (result_of r).1 = TRUE /\
   exists t1 t2,
     trace_of r = t1 ++ EvProxyCall 3 "Suspend" false (inl inhibited) :: t2 /\
     In (EvSignal RESUME GPM_CONTROL_ACTION_SUSPEND) t2) /\
  (let r := run world_handler
              (gpm_control_transition GPM_CONTROL_ACTION_HIBERNATE
                 keyring_only (Some None)) (inhibiting all_off) in
   (result_of r).1 = TRUE /\
   exists t1 t2,
     trace_of r = t1 ++ EvProxyCall 3 "Hibernate" false (inl inhibited) :: t2 /\
     In (EvSignal RESUME GPM_CONTROL_ACTION_HIBERNATE) t2).
Proof.
  pose proof remote_error_still_succeeds as (Hany & Hworld).
  split.
  - apply (Hworld GPM_CONTROL_ACTION_SUSPEND libsecret_only (Some None)
             (inhibiting all_on) 3 inhibited []); reflexivity.
  - apply (Hany World world_handler (inhibiting all_off)
             GPM_CONTROL_ACTION_HIBERNATE keyring_only (Some None)).
    in_trace.
Defined.

(** C5, as worded, fails: when the second availability probe says no,
    suspend returns failure but "resume" is broadcast all the same. *)
Lemma resume_broadcast_after_failed_recheck :
  ~ resume_suppressed_on_step5_failure.
Proof.
  intros Hclaim.
  specialize (Hclaim World world_handler (vanishing all_off)
                GPM_CONTROL_ACTION_SUSPEND libsecret_only None).
  cbv zeta in Hclaim. destruct Hclaim as [_ Hno].
  - right. reflexivity.
  - apply Hno. in_trace.
Qed.

(** C5, amended.  When step 5 fails at the transport or availability
    layer, suspend and hibernate return failure.  If the connection to the
    login manager was refused, no "resume" is broadcast.  If the second
    availability probe said no, no login1 traffic takes place and "resume"
    is broadcast. *)
Theorem step5_failure_returns_failure
    {S : Type} (h : Handler S) (s : S) action cfg error :
  let r := run h (gpm_control_transition action cfg error) s in
  step5_failed (trace_of r) ->
  (result_of r).1 = FALSE /\
  ((exists e, In (EvProxyNew (inl e)) (trace_of r)) ->
   forall a, ~ In (EvSignal RESUME a) (trace_of r)) /\
  (probes (trace_of r) = [true; false] ->
   List.filter is_login1 (trace_of r) = [] /\
   In (EvSignal RESUME action) (trace_of r)).
Proof.
  intros r Hfail. repeat split.
  - destruct Hfail as [[e He] | Hp].
    + apply (refused_run h s action cfg error e He).
    + apply (recheck_failed_run h s action cfg error Hp).
  - intros [e He] a Ha.
    destruct (refused_run h s action cfg error e He) as (_ & _ & Hms).
    assert (Hin : In (EvSignal RESUME a) (List.filter milestone (trace_of r)))
      by (apply filter_In; auto).
    unfold r in Hin. rewrite Hms in Hin. simpl in Hin.
    destruct Hin as [Heq | []]. discriminate Heq.
  - apply (recheck_failed_run h s action cfg error H).
  - apply milestone_In.
    destruct (recheck_failed_run h s action cfg error H) as (_ & _ & Hms).
    fold r in Hms. rewrite Hms. simpl. tauto.
Qed.

Lemma step5_failure_returns_failure_witness :
  let r := run world_handler
             (gpm_control_transition GPM_CONTROL_ACTION_SUSPEND
                libsecret_only None) (refused all_on) in
  (result_of r).1 = FALSE /\
  ((exists e, In (EvProxyNew (inl e)) (trace_of r)) ->
   forall a, ~ In (EvSignal RESUME a) (trace_of r)) /\
  (probes (trace_of r) = [true; false] ->
   List.filter is_login1 (trace_of r) = [] /\
   In (EvSignal RESUME GPM_CONTROL_ACTION_SUSPEND) (trace_of r)).
Proof.
  apply (step5_failure_returns_failure world_handler (refused all_on)).
  left. exists dbus_down. in_trace.
Defined.

(** ** Shutdown *)

Lemma shutdown_all_runs error :
  all_runs (gpm_control_shutdown error)
    (fun r t =>
       r.2 = error /\ List.filter is_broadcast t = [] /\
       List.filter is_network t = [] /\
       List.filter is_credential_lock t = [] /\
       ((probes t = [false] /\ r.1 = FALSE /\ List.filter is_login1 t = []) \/
        (exists e, probes t = [true] /\ r.1 = FALSE /\
                   List.filter is_login1 t = [EvProxyNew (inl e)]) \/
        (exists p reply,
            probes t = [true] /\ r.1 = reply_ok reply /\
            List.filter is_login1 t
            = [EvProxyNew (inr p); EvProxyCall p "PowerOff" false reply]))).
Proof.
  explore; (do 4 (split; [reflexivity|]));
    first [ left; repeat split; reflexivity
          | right; left; eexists; repeat split; reflexivity
          | right; right; eexists _, _; repeat split; reflexivity ].
Qed.

(** C7, as worded, fails: with the login manager available but the bus
    connection refused, shutdown issues no PowerOff call at all. *)
Lemma shutdown_without_poweroff_call :
  ~ shutdown_always_calls_poweroff.
Proof.
  intros Hclaim.
  destruct (Hclaim World world_handler (refused all_on) None)
    as (_ & Hcall & _).
  destruct Hcall as (p & reply & Hcalls & _); [reflexivity|].
  discriminate Hcalls.
Qed.

(** C7, amended.  Shutdown never writes the error slot, never broadcasts
    "sleep" or "resume", and never touches the credential stores or the
    network.  With the login manager unavailable it returns failure with
    no login1 traffic.  With it available it connects once; a refused
    connection gives failure with no PowerOff call; otherwise exactly one
    PowerOff call with the interactive flag false is issued and shutdown
    returns its outcome (failure on an error reply). *)
Theorem shutdown_behaviour {S : Type} (h : Handler S) (s : S) error :
  let r := run h (gpm_control_shutdown error) s in
  let t := trace_of r in
  (result_of r).2 = error /\
  List.filter is_broadcast t = [] /\
  List.filter is_network t = [] /\
  List.filter is_credential_lock t = [] /\
  ((probes t = [false] /\ (result_of r).1 = FALSE /\
    List.filter is_login1 t = []) \/
   (exists e, probes t = [true] /\ (result_of r).1 = FALSE /\
              List.filter is_login1 t = [EvProxyNew (inl e)]) \/
   (exists p reply,
       probes t = [true] /\ (result_of r).1 = reply_ok reply /\
       List.filter is_login1 t
       = [EvProxyNew (inr p); EvProxyCall p "PowerOff" false reply])).
Proof.
  exact (run_all_runs h _ _ (shutdown_all_runs error) s).
Qed.

(** ** Network quiesce *)

Section Network.
Context {S : Type} (h : Handler S) (s : S).
Variables (action : GpmControlAction) (cfg : BuildConfig) (error : ErrorLoc).

Let t := trace_of (run h (gpm_control_transition action cfg error) s).

Lemma refused_in_view :
  (exists e, In (EvProxyNew (inl e)) t) <->
  (exists e, In (EvProxyNew (inl e)) (control_view t)).
Proof.
  split; intros [e He]; exists e; apply (In_control_view _ t); auto.
Qed.

Lemma network_run :
  hd_error (probes t) = Some true ->
  exists b1 rest,
    reads GPM_SETTINGS_NETWORKMANAGER_SLEEP t = b1 :: rest /\
    (In EvNmSleep t <-> b1 = true) /\
    (In EvNmWake t <-> rest = [true]) /\
    (rest = [] <-> exists e, In (EvProxyNew (inl e)) t) /\
    (length rest <= 1)%nat.
Proof.
  setoid_rewrite refused_in_view.
  setoid_rewrite (In_control_view EvNmSleep t eq_refl).
  setoid_rewrite (In_control_view EvNmWake t eq_refl).
  rewrite <- reads_network_control_view, <- probes_control_view.
  subst t.
  destruct (transition_follows_shape h s action cfg error)
    as [|[] []|[] ?|[] [] ? ?]; simpl; intros Hp; try discriminate;
    eexists _, _; (split; [reflexivity|]); simpl;
    repeat split; intros; try lia;
    repeat match goal with
      | H : _ \/ _ |- _ => destruct H
      | H : ex _ |- _ => destruct H
      | H : False |- _ => destruct H
      end; try discriminate; try reflexivity;
    try (eexists; repeat first [left; reflexivity | right]);
    try (repeat first [left; reflexivity | right]).
Qed.
End Network.

(** C8, as worded, fails on three inputs.  With the setting on and the
    login manager unavailable at entry, the pre-sleep action is not
    invoked.  With the setting on and the bus connection refused, the
    pre-sleep action is invoked and the post-wake action is not.  With the
    setting off at entry and switched on by a handler of "sleep", the
    post-wake action is invoked although the pre-sleep action was not. *)
Lemma quiesce_not_following_setting :
  ~ quiesce_follows_setting GPM_CONTROL_ACTION_SUSPEND libsecret_only None
      (unavailable all_on) /\
  ~ quiesce_follows_setting GPM_CONTROL_ACTION_SUSPEND libsecret_only None
      (refused all_on) /\
  ~ quiesce_follows_setting GPM_CONTROL_ACTION_HIBERNATE keyring_only None
      toggling.
Proof.
  repeat split; intros [H1 H2].
  - pose proof (proj2 H1 eq_refl) as Hsleep. not_in_trace Hsleep.
  - assert (Hwake : In EvNmWake (trace_of (run world_handler
              (gpm_control_transition GPM_CONTROL_ACTION_SUSPEND
                 libsecret_only None) (refused all_on))))
      by (apply (proj2 H2); in_trace).
    not_in_trace Hwake.
  - assert (Hsleep : In EvNmSleep (trace_of (run world_handler
              (gpm_control_transition GPM_CONTROL_ACTION_HIBERNATE
                 keyring_only None) toggling)))
      by (apply (proj1 H2); in_trace).
    not_in_trace Hsleep.
Qed.

(** C8, amended.  In every suspend or hibernate that passes the entry
    availability check, the network setting is read at step 3 and the
    pre-sleep action is invoked if and only if that read returned true.
    The setting is read a second time at step 7, which is reached unless
    the bus connection was refused at step 5; the post-wake action is
    invoked if and only if step 7 is reached and that second read returned
    true. *)
Theorem network_quiesce_policy
    {S : Type} (h : Handler S) (s : S) action cfg error :
  let t := trace_of (run h (gpm_control_transition action cfg error) s) in
  hd_error (probes t) = Some true ->
  exists b1 rest,
    reads GPM_SETTINGS_NETWORKMANAGER_SLEEP t = b1 :: rest /\
    (In EvNmSleep t <-> b1 = true) /\
    (In EvNmWake t <-> rest = [true]) /\
    (rest = [] <-> exists e, In (EvProxyNew (inl e)) t) /\
    (length rest <= 1)%nat.
Proof. exact (network_run h s action cfg error). Qed.

Lemma network_quiesce_policy_witness :
  let t := trace_of (run world_handler
                       (gpm_control_transition GPM_CONTROL_ACTION_HIBERNATE
                          keyring_only None) toggling) in
  exists b1 rest,
    reads GPM_SETTINGS_NETWORKMANAGER_SLEEP t = b1 :: rest /\
    (In EvNmSleep t <-> b1 = true) /\
    (In EvNmWake t <-> rest = [true]) /\
    (rest = [] <-> exists e, In (EvProxyNew (inl e)) t) /\
    (length rest <= 1)%nat.
Proof.
  apply (network_quiesce_policy world_handler toggling). reflexivity.
Defined.

(** ** The keyring key read by hibernate *)

Lemma hibernate_libsecret_all_runs error :
  all_runs (gpm_control_hibernate libsecret_only error)
    (fun _ t =>
       (hd_error (probes t) = Some true ->
        exists b, In (EvSettingsGet GPM_SETTINGS_LOCK_KEYRING_SUSPEND b) t) /\
       forall b, ~ In (EvSettingsGet GPM_SETTINGS_LOCK_KEYRING_HIBERNATE b) t).
Proof.
  explore; (split; [intros Hp | intros b Hin]);
    try discriminate Hp;
    try (eexists; right; left; reflexivity);
    not_in_trace Hin.
Qed.

(** C3 (code bug).  Suspend is the specified procedure.  Hibernate is the
    same text with the Hibernate method, the hibernate action and, in the
    gnome-keyring block, the hibernate key, but in the libsecret block it
    keeps the suspend key; so it is the specified procedure in a build
    with gnome-keyring only.  Built with libsecret, hibernate never reads
    the lock-keyring-on-hibernate key: whenever it passes the entry check
    it reads the lock-keyring-on-suspend key instead.  So with "lock on
    hibernate" on and "lock on suspend" off it locks nothing, and with the
    two the other way round it locks the collections.  Built with
    gnome-keyring, the same function reads the hibernate key and locks. *)
Theorem hibernate_libsecret_reads_suspend_key :
  gpm_control_suspend
  = transition_as_specified GPM_CONTROL_ACTION_SUSPEND /\
  gpm_control_hibernate
  = transition_template GPM_SETTINGS_LOCK_KEYRING_SUSPEND
      GPM_SETTINGS_LOCK_KEYRING_HIBERNATE "Hibernate"
      GPM_CONTROL_ACTION_HIBERNATE /\
  gpm_control_hibernate keyring_only
  = transition_as_specified GPM_CONTROL_ACTION_HIBERNATE keyring_only /\
  gpm_control_hibernate libsecret_only
  <> transition_as_specified GPM_CONTROL_ACTION_HIBERNATE libsecret_only /\
  (forall (S : Type) (h : Handler S) (s : S) error,
      let t := trace_of (run h (gpm_control_hibernate libsecret_only error) s)
      in
      (hd_error (probes t) = Some true ->
       exists b, In (EvSettingsGet GPM_SETTINGS_LOCK_KEYRING_SUSPEND b) t) /\
      forall b, ~ In (EvSettingsGet GPM_SETTINGS_LOCK_KEYRING_HIBERNATE b) t) /\
  trace_of (run world_handler (gpm_control_hibernate libsecret_only None)
              (healthy lock_on_hibernate_only))
  = [EvLogindRunning true;
     EvSettingsGet GPM_SETTINGS_LOCK_KEYRING_SUSPEND false;
     EvSettingsGet GPM_SETTINGS_NETWORKMANAGER_SLEEP false;
     EvDebug "emitting sleep"; EvSignal SLEEP GPM_CONTROL_ACTION_HIBERNATE;
     EvLogindRunning true; EvProxyNew (inr 3);
     EvProxyCall 3 "Hibernate" false (inr 0);
     EvDebug "emitting resume"; EvSignal RESUME GPM_CONTROL_ACTION_HIBERNATE;
     EvSettingsGet GPM_SETTINGS_NETWORKMANAGER_SLEEP false] /\
  List.filter is_credential_lock
    (trace_of (run world_handler (gpm_control_hibernate libsecret_only None)
                 (healthy lock_on_suspend_only)))
  = [EvSecretGet (inr 7); EvSecretCollections 7 [1; 2];
     EvSecretLock 7 [1; 2] (inr 2%Z)] /\
  List.filter is_credential_lock
    (trace_of (run world_handler (gpm_control_hibernate keyring_only None)
                 (healthy lock_on_hibernate_only)))
  = [EvKeyringLockAll GNOME_KEYRING_RESULT_OK].
Proof.
  do 3 (split; [reflexivity|]). split; [|split; [|repeat split]].
  - intros Heq.
    apply (f_equal (fun f => trace_of (run world_handler (f None)
                                         (healthy lock_on_hibernate_only))))
      in Heq.
    discriminate Heq.
  - intros S h s error.
    exact (run_all_runs h _ _ (hibernate_libsecret_all_runs error) s).
Qed.

(** ** The error slot *)

Lemma secret_get_error_In e t :
  In (EvSecretGet (inl e)) t -> In e (secret_errors t).
Proof.
  intros Hin. apply in_flat_map. eexists. split; [exact Hin|]. left. reflexivity.
Qed.

Lemma secret_lock_error_In sv objs e t :
  In (EvSecretLock sv objs (inl e)) t -> In e (secret_errors t).
Proof.
  intros Hin. apply in_flat_map. eexists. split; [exact Hin|]. left. reflexivity.
Qed.

Lemma transition_error_slot action cfg error :
  all_runs (gpm_control_transition action cfg error)
    (fun r t =>
       (length (secret_errors t) <= 1)%nat /\
       r.2 = match secret_errors t with
             | [] => error
             | e :: _ => g_propagate_error error e
             end /\
       (secret_errors t <> [] ->
        WITH_LIBSECRET cfg = true /\
        In (EvSettingsGet GPM_SETTINGS_LOCK_KEYRING_SUSPEND true) t)).
Proof.
  destruct action, cfg as [[] []]; explore;
    (split; [lia|]); (split; [reflexivity|]);
    intros Hne; try (exfalso; apply Hne; reflexivity);
    (split; [reflexivity|]); right; left; reflexivity.
Qed.

(** What holds of a run, in any environment, in which the secret service
    failed and the privileged call was dispatched. *)
Lemma error_written_run
    {S : Type} (h : Handler S) (s : S) action cfg e p m i reply :
  let r := run h (gpm_control_transition action cfg (Some None)) s in
  (In (EvSecretGet (inl e)) (trace_of r) \/
   exists sv objs, In (EvSecretLock sv objs (inl e)) (trace_of r)) ->
  In (EvProxyCall p m i reply) (trace_of r) ->
  result_of r = (TRUE, Some (Some e)) /\
  WITH_LIBSECRET cfg = true /\
  In (EvSettingsGet GPM_SETTINGS_LOCK_KEYRING_SUSPEND true) (trace_of r).
Proof.
  intros r Hfail Hcall.
  assert (He : In e (secret_errors (trace_of r))).
  { destruct Hfail as [H | (sv & objs & H)];
      eauto using secret_get_error_In, secret_lock_error_In. }
  destruct (attempted_run h s action cfg (Some None) p m i reply Hcall)
    as (Hret & _).
  destruct (run_all_runs h _ _ (transition_error_slot action cfg (Some None)) s)
    as (Hlen & Hslot & Hkey).
  fold r in Hret, Hlen, Hslot, Hkey.
  destruct (secret_errors (trace_of r)) as [|e' [|? ?]] eqn:Herr;
    simpl in He, Hlen; try tauto; try lia.
  destruct He as [-> | []].
  split; [|apply Hkey; discriminate].
  destruct (result_of r) as [ret slot]. simpl in *. subst. reflexivity.
Qed.

(** With libsecret, logind and the bus there, the suspend key on and the
    secret service failing, the result is TRUE with the error stored. *)
Lemma world_error_written action cfg (w : World) e p rest :
  WITH_LIBSECRET cfg = true ->
  logind w = true :: true :: rest -> bus w = inr p ->
  settings w GPM_SETTINGS_LOCK_KEYRING_SUSPEND = true ->
  (secret_service w = inl e \/
   exists sv, secret_service w = inr sv /\ collections w <> [] /\
              lock_reply w = inl e) ->
  result_of (run world_handler
               (gpm_control_transition action cfg (Some None)) w)
  = (TRUE, Some (Some e)).
Proof.
  destruct w as [lg st os ss cols lr kr bs l1], cfg as [lib key]. simpl.
  intros -> -> -> Hkey [-> | (sv & -> & Hcols & ->)];
    destruct cols as [|c cols']; try (exfalso; apply Hcols; reflexivity);
    destruct action, key; cbn; rewrite ?Hkey; world_cases; reflexivity.
Qed.

(** C10.  Suspend and hibernate alike, built with libsecret.  In any
    environment, when the secret service fails at connect or at lock and
    the privileged call is then dispatched, the operation returns TRUE and
    the caller's (empty) error slot holds the secret service's error; the
    keyring key that was read as true is lock-keyring-on-suspend, for both
    operations.  And this happens: in the scripted environment, whenever
    logind answers both probes, the bus connects, lock-keyring-on-suspend
    is on and the secret service fails at connect, or connects, lists
    collections and fails at lock, the operation returns TRUE with that
    error in the slot. *)
Theorem success_with_error_written :
  (forall (S : Type) (h : Handler S) (s : S) action cfg e p m i reply,
      let r := run h (gpm_control_transition action cfg (Some None)) s in
      (In (EvSecretGet (inl e)) (trace_of r) \/
       exists sv objs, In (EvSecretLock sv objs (inl e)) (trace_of r)) ->
      In (EvProxyCall p m i reply) (trace_of r) ->
      result_of r = (TRUE, Some (Some e)) /\
      WITH_LIBSECRET cfg = true /\
      In (EvSettingsGet GPM_SETTINGS_LOCK_KEYRING_SUSPEND true) (trace_of r)) /\
  (forall action cfg (w : World) e p rest,
      WITH_LIBSECRET cfg = true ->
      logind w = true :: true :: rest -> bus w = inr p ->
      settings w GPM_SETTINGS_LOCK_KEYRING_SUSPEND = true ->
      (secret_service w = inl e \/
       exists sv, secret_service w = inr sv /\ collections w <> [] /\
                  lock_reply w = inl e) ->
      result_of (run world_handler
                   (gpm_control_transition action cfg (Some None)) w)
      = (TRUE, Some (Some e))).
Proof.
  split.
  - intros S h s action cfg e p m i reply.
    exact (error_written_run h s action cfg e p m i reply).
  - exact world_error_written.
Qed.

Lemma success_with_error_written_witness :
  result_of (run world_handler
               (gpm_control_transition GPM_CONTROL_ACTION_SUSPEND
                  libsecret_only (Some None)) (secrets_down all_on))
  = (TRUE, Some (Some no_secrets)) /\
  result_of (run world_handler
               (gpm_control_transition GPM_CONTROL_ACTION_HIBERNATE
                  libsecret_only (Some None)) (secrets_down all_on))
  = (TRUE, Some (Some no_secrets)) /\
  result_of (run world_handler
               (gpm_control_transition GPM_CONTROL_ACTION_SUSPEND
                  libsecret_only (Some None)) (locking_fails all_on))
  = (TRUE, Some (Some no_secrets)) /\
  result_of (run world_handler
               (gpm_control_transition GPM_CONTROL_ACTION_HIBERNATE
                  libsecret_only (Some None)) (locking_fails all_on))
  = (TRUE, Some (Some no_secrets)) /\
  (let r := run world_handler
              (gpm_control_transition GPM_CONTROL_ACTION_HIBERNATE
                 libsecret_only (Some None)) (secrets_down all_on) in
   result_of r = (TRUE, Some (Some no_secrets)) /\
   WITH_LIBSECRET libsecret_only = true /\
   In (EvSettingsGet GPM_SETTINGS_LOCK_KEYRING_SUSPEND true) (trace_of r)).
Proof.
  pose proof success_with_error_written as (Hany & Hworld).
  split; [|split; [|split; [|split]]].
  - apply (Hworld GPM_CONTROL_ACTION_SUSPEND libsecret_only
             (secrets_down all_on) no_secrets 3 []);
      try reflexivity. left. reflexivity.
  - apply (Hworld GPM_CONTROL_ACTION_HIBERNATE libsecret_only
             (secrets_down all_on) no_secrets 3 []);
      try reflexivity. left. reflexivity.
  - apply (Hworld GPM_CONTROL_ACTION_SUSPEND libsecret_only
             (locking_fails all_on) no_secrets 3 []);
      try reflexivity. right. exists 7. repeat split. discriminate.
  - apply (Hworld GPM_CONTROL_ACTION_HIBERNATE libsecret_only
             (locking_fails all_on) no_secrets 3 []);
      try reflexivity. right. exists 7. repeat split. discriminate.
  - apply (Hany World world_handler (secrets_down all_on)
             GPM_CONTROL_ACTION_HIBERNATE libsecret_only no_secrets
             3 "Hibernate" false (inr 0)).
    + left. in_trace.
    + in_trace.
Defined.

(** ** Advisory calls do not steer a transition *)

Lemma advisory_event_of {X} (e : Eff X) (x : X) :
  advisory (event_of e x) = advisory_eff e.
Proof. destruct e; reflexivity. Qed.

Section Simulation.
Context {S1 S2 : Type} (h1 : Handler S1) (h2 : Handler S2).
Variable R : S1 -> S2 -> Prop.

(** Both environments answer every other call alike... *)
Hypothesis answers_alike :
  forall X (e : Eff X) s1 s2,
    advisory_eff e = false -> R s1 s2 ->
    (h1 X e s1).1 = (h2 X e s2).1 /\ R (h1 X e s1).2 (h2 X e s2).2.

(** ... and what an advisory call does to either is of no consequence. *)
Hypothesis advisory_inert :
  forall X (e : Eff X) s1 s2,
    advisory_eff e = true -> R s1 s2 ->
    R (h1 X e s1).2 s2 /\ R s1 (h2 X e s2).2.

Lemma sim_run {A} (Q : A -> A -> Prop) (p1 p2 : Prog A) :
  sim Q p1 p2 ->
  forall s1 s2, R s1 s2 ->
    Q (result_of (run h1 p1 s1)) (result_of (run h2 p2 s2)) /\
    essential (trace_of (run h1 p1 s1))
    = essential (trace_of (run h2 p2 s2)) /\
    R (state_of (run h1 p1 s1)) (state_of (run h2 p2 s2)).
Proof.
  induction 1 as [a1 a2 HQ | X e k1 k2 He _ IH | X e k1 p2 He _ IH
                 | X e p1 k2 He _ IH]; intros s1 s2 HR.
  - simpl. auto.
  - destruct (answers_alike X e s1 s2 He HR) as [Hx HR'].
    simpl. destruct (h1 X e s1) as [x1 s1'], (h2 X e s2) as [x2 s2'].
    simpl in Hx, HR'. subst x2.
    specialize (IH x1 s1' s2' HR').
    destruct (run h1 (k1 x1) s1') as [[b1 u1] t1].
    destruct (run h2 (k2 x1) s2') as [[b2 u2] t2].
    unfold essential in *. simpl in *.
    rewrite advisory_event_of, He. simpl.
    destruct IH as (? & -> & ?). auto.
  - destruct (advisory_inert X e s1 s2 He HR) as [HR' _].
    simpl. destruct (h1 X e s1) as [x1 s1']. simpl in HR'.
    specialize (IH x1 s1' s2 HR').
    destruct (run h1 (k1 x1) s1') as [[b1 u1] t1].
    unfold essential in *. simpl in *.
    rewrite advisory_event_of, He. exact IH.
  - destruct (advisory_inert X e s1 s2 He HR) as [_ HR'].
    simpl. destruct (h2 X e s2) as [x2 s2']. simpl in HR'.
    specialize (IH x2 s1 s2' HR').
    destruct (run h2 (k2 x2) s2') as [[b2 u2] t2].
    unfold essential in *. simpl in *.
    rewrite advisory_event_of, He. exact IH.
Qed.
End Simulation.

Ltac sim_explore :=
  repeat first
    [ progress cbn
    | apply sim_ret; reflexivity
    | apply sim_left; [reflexivity|]
    | apply sim_right; [reflexivity|]
    | apply sim_sync; [reflexivity|]
    | match goal with
      | |- forall _ : bool, _ => intros []
      | |- forall _ : unit, _ => intros []
      | |- forall _ : sum _ _, _ => intros [?|?]
      | |- forall _ : list _, _ => intros [|? ?]
      | |- forall _ : GnomeKeyringResult, _ => intros [|?]
      | |- context [Z.leb ?n 0] => destruct (Z.leb n 0)
      end ].

Lemma transition_sim action cfg error :
  sim (fun a b : gboolean * ErrorLoc => a.1 = b.1)
    (gpm_control_transition action cfg error)
    (gpm_control_transition action cfg error).
Proof.
  destruct action, cfg as [[] []]; sim_explore.
Qed.

Lemma essential_In ev t1 t2 :
  essential t1 = essential t2 -> advisory ev = false ->
  In ev t1 -> In ev t2.
Proof.
  intros Heq Hev Hin.
  assert (H : In ev (essential t1))
    by (apply filter_In; rewrite Hev; auto).
  rewrite Heq in H. apply filter_In in H. tauto.
Qed.

Lemma world_answers_alike X (e : Eff X) w1 w2 :
  advisory_eff e = false -> same_but_credentials w1 w2 ->
  (world_handler X e w1).1 = (world_handler X e w2).1 /\
  same_but_credentials (world_handler X e w1).2 (world_handler X e w2).2.
Proof.
  intros He (Hl & Hs & Ho & Hb & Hr).
  destruct e; try discriminate He; simpl;
    unfold same_but_credentials; simpl;
    rewrite ?Hl, ?Hs, ?Ho, ?Hb, ?Hr; auto 10.
Qed.

Lemma world_advisory_inert X (e : Eff X) w1 w2 :
  advisory_eff e = true -> same_but_credentials w1 w2 ->
  same_but_credentials (world_handler X e w1).2 w2 /\
  same_but_credentials w1 (world_handler X e w2).2.
Proof.
  intros He HR. destruct e; try discriminate He; simpl; auto.
Qed.

(** C6.  Take two environments that answer every call alike except the
    calls to the credential stores (and are not otherwise affected by
    those calls or by log lines).  Then suspend and hibernate return the
    same boolean in both, and make the same settings reads, network
    actions, broadcasts and login1 calls, with the same replies, in the
    same order.  So whether the credential lock fails at connect, at
    enumerate or at lock, or succeeds, an otherwise successful call still
    returns success, "sleep" and "resume" are still broadcast and the
    privileged call is still made. *)
Theorem credential_lock_failure_keeps_outcome
    {S1 S2 : Type} (h1 : Handler S1) (h2 : Handler S2)
    (R : S1 -> S2 -> Prop) :
  (forall X (e : Eff X) s1 s2,
      advisory_eff e = false -> R s1 s2 ->
      (h1 X e s1).1 = (h2 X e s2).1 /\ R (h1 X e s1).2 (h2 X e s2).2) ->
  (forall X (e : Eff X) s1 s2,
      advisory_eff e = true -> R s1 s2 ->
      R (h1 X e s1).2 s2 /\ R s1 (h2 X e s2).2) ->
  forall action cfg error s1 s2, R s1 s2 ->
    let r1 := run h1 (gpm_control_transition action cfg error) s1 in
    let r2 := run h2 (gpm_control_transition action cfg error) s2 in
    (result_of r1).1 = (result_of r2).1 /\
    essential (trace_of r1) = essential (trace_of r2) /\
    forall ev, advisory ev = false ->
               (In ev (trace_of r1) <-> In ev (trace_of r2)).
Proof.
  intros Hsync Hinert action cfg error s1 s2 HR r1 r2.
  destruct (sim_run h1 h2 R Hsync Hinert _ _ _
              (transition_sim action cfg error) s1 s2 HR)
    as (Hret & Htrace & _).
  fold r1 r2 in Hret, Htrace.
  repeat split; eauto using essential_In.
Qed.

Lemma credential_lock_failure_keeps_outcome_witness :
  let r1 := run world_handler
              (gpm_control_transition GPM_CONTROL_ACTION_SUSPEND
                 {| WITH_LIBSECRET := true; WITH_KEYRING := true |} None)
              (healthy all_on) in
  let r2 := run world_handler
              (gpm_control_transition GPM_CONTROL_ACTION_SUSPEND
                 {| WITH_LIBSECRET := true; WITH_KEYRING := true |} None)
              (secrets_down all_on) in
  (result_of r1).1 = (result_of r2).1 /\
  essential (trace_of r1) = essential (trace_of r2) /\
  forall ev, advisory ev = false ->
             (In ev (trace_of r1) <-> In ev (trace_of r2)).
Proof.
  apply (credential_lock_failure_keeps_outcome world_handler world_handler
           same_but_credentials world_answers_alike world_advisory_inert).
  unfold same_but_credentials. simpl. auto.
Defined.

(** ** The singleton *)

Lemma singleton_inv_boot : singleton_inv boot.
Proof.
  split; simpl; [|reflexivity].
  intros a [o Ho]. simpl in Ho. rewrite lookup_empty in Ho. discriminate.
Qed.

Lemma live_singleton a b (o : GObject) (p : Process) :
  heap p = {[a := o]} -> live p b -> b = a.
Proof.
  intros Hh [o' Ho']. rewrite Hh in Ho'.
  apply lookup_singleton_Some in Ho'. destruct Ho'; congruence.
Qed.

Lemma construct_live p a o :
  gpm_control_object p = Some a -> heap p = {[a := o]} ->
  gpm_control_new p
  = Some (a, {| heap := {[a := {| ref_count := Datatypes.S (ref_count o);
                                  weak_pointer := weak_pointer o |}]};
                next_serial := next_serial p;
                gpm_control_object := Some a |}).
Proof.
  intros Hg Hh. unfold gpm_control_new, g_object_ref. rewrite Hg, Hh.
  rewrite lookup_singleton_eq. simpl. rewrite insert_singleton_eq.
  reflexivity.
Qed.

Lemma construct_fresh p :
  gpm_control_object p = None -> heap p = ∅ ->
  gpm_control_new p
  = Some (next_serial p,
          {| heap := {[next_serial p := {| ref_count := 1;
                                           weak_pointer := true |}]};
             next_serial := Pos.succ (next_serial p);
             gpm_control_object := Some (next_serial p) |}).
Proof.
  intros Hg Hh. unfold gpm_control_new, g_object_new, g_object_add_weak_pointer.
  rewrite Hg, Hh. simpl. rewrite insert_empty, alter_singleton_eq. reflexivity.
Qed.

Lemma live_lookup p a o :
  singleton_inv p -> heap p !! a = Some o ->
  gpm_control_object p = Some a /\ heap p = {[a := o]} /\
  weak_pointer o = true /\ (0 < ref_count o)%nat /\
  (a < next_serial p)%positive.
Proof.
  intros [Hser Hg] Ho.
  assert (Hlt : (a < next_serial p)%positive) by (apply Hser; eexists; eauto).
  destruct (gpm_control_object p) as [b|].
  - destruct Hg as (o' & Hh & Hw & Hc). rewrite Hh in Ho.
    apply lookup_singleton_Some in Ho. destruct Ho as [-> ->]. auto.
  - rewrite Hg, lookup_empty in Ho. discriminate.
Qed.

Lemma retain_live p a o :
  heap p = {[a := o]} ->
  g_object_ref a p
  = Some {| heap := {[a := {| ref_count := Datatypes.S (ref_count o);
                              weak_pointer := weak_pointer o |}]};
            next_serial := next_serial p;
            gpm_control_object := gpm_control_object p |}.
Proof.
  intros Hh. unfold g_object_ref. rewrite Hh, lookup_singleton_eq.
  rewrite insert_singleton_eq. reflexivity.
Qed.

Lemma release_last p a o :
  heap p = {[a := o]} -> ref_count o = 1%nat ->
  g_object_unref a p
  = Some {| heap := ∅; next_serial := next_serial p;
            gpm_control_object :=
              if weak_pointer o then None else gpm_control_object p |}.
Proof.
  intros Hh Hc. unfold g_object_unref.
  rewrite Hh, lookup_singleton_eq, Hc, delete_singleton_eq. reflexivity.
Qed.

Lemma release_shared p a o n :
  heap p = {[a := o]} -> ref_count o = Datatypes.S (Datatypes.S n) ->
  g_object_unref a p
  = Some {| heap := {[a := {| ref_count := Datatypes.S n;
                              weak_pointer := weak_pointer o |}]};
            next_serial := next_serial p;
            gpm_control_object := gpm_control_object p |}.
Proof.
  intros Hh Hc. unfold g_object_unref.
  rewrite Hh, lookup_singleton_eq, Hc, insert_singleton_eq. reflexivity.
Qed.

Lemma singleton_inv_one p a o :
  (a < next_serial p)%positive -> gpm_control_object p = Some a ->
  heap p = {[a := o]} -> weak_pointer o = true -> (0 < ref_count o)%nat ->
  singleton_inv p.
Proof.
  intros Hlt Hg Hh Hw Hc. split.
  - intros b Hb. rewrite (live_singleton a b o p Hh Hb). exact Hlt.
  - rewrite Hg. eauto.
Qed.

Lemma singleton_inv_none p :
  gpm_control_object p = None -> heap p = ∅ -> singleton_inv p.
Proof.
  intros Hg Hh. split.
  - intros b [o Ho]. rewrite Hh, lookup_empty in Ho. discriminate.
  - rewrite Hg. exact Hh.
Qed.

Lemma singleton_inv_serve r p p' :
  singleton_inv p -> serve r p = Some p' ->
  singleton_inv p' /\ (next_serial p <= next_serial p')%positive.
Proof.
  intros Hinv Hserve. destruct r as [|a|a]; simpl in Hserve.
  - destruct (gpm_control_object p) as [a|] eqn:Hg.
    + destruct Hinv as [Hser Hone]. rewrite Hg in Hone.
      destruct Hone as (o & Hh & Hw & Hc).
      rewrite (construct_live p a o Hg Hh) in Hserve.
      injection Hserve as <-. simpl. split; [|lia].
      apply (singleton_inv_one _ a
               {| ref_count := Datatypes.S (ref_count o);
                  weak_pointer := weak_pointer o |}); simpl; auto; try lia.
      apply Hser. exists o. rewrite Hh. apply lookup_singleton_eq.
    + destruct Hinv as [Hser Hnone]. rewrite Hg in Hnone.
      rewrite (construct_fresh p Hg Hnone) in Hserve.
      injection Hserve as <-. simpl. split; [|lia].
      apply (singleton_inv_one _ (next_serial p)
               {| ref_count := 1; weak_pointer := true |}); simpl; auto; lia.
  - destruct (heap p !! a) as [o|] eqn:Ho;
      [|unfold g_object_ref in Hserve; rewrite Ho in Hserve; discriminate].
    destruct (live_lookup p a o Hinv Ho) as (Hg & Hh & Hw & Hc & Hlt).
    rewrite (retain_live p a o Hh) in Hserve. injection Hserve as <-.
    simpl. split; [|lia].
    apply (singleton_inv_one _ a
             {| ref_count := Datatypes.S (ref_count o);
                weak_pointer := weak_pointer o |}); simpl; auto; lia.
  - destruct (heap p !! a) as [o|] eqn:Ho;
      [|unfold g_object_unref in Hserve; rewrite Ho in Hserve; discriminate].
    destruct (live_lookup p a o Hinv Ho) as (Hg & Hh & Hw & Hc & Hlt).
    destruct (ref_count o) as [|[|n]] eqn:Hn; [lia| |].
    + rewrite (release_last p a o Hh Hn), Hw in Hserve.
      injection Hserve as <-. simpl. split; [|lia].
      apply singleton_inv_none; reflexivity.
    + rewrite (release_shared p a o n Hh Hn) in Hserve.
      injection Hserve as <-. simpl. split; [|lia].
      apply (singleton_inv_one _ a
               {| ref_count := Datatypes.S n;
                  weak_pointer := weak_pointer o |}); simpl; auto; lia.
Qed.

Lemma singleton_inv_serve_all rs p p' :
  singleton_inv p -> serve_all rs p = Some p' ->
  singleton_inv p' /\ (next_serial p <= next_serial p')%positive.
Proof.
  revert p. induction rs as [|r rs IH]; simpl; intros p Hinv Hrun.
  - injection Hrun as <-. split; [exact Hinv|lia].
  - destruct (serve r p) as [p1|] eqn:Hr; [|discriminate].
    destruct (singleton_inv_serve r p p1 Hinv Hr) as [Hinv1 Hle1].
    destruct (IH p1 Hinv1 Hrun) as [Hinv' Hle']. split; [exact Hinv'|lia].
Qed.

Lemma serve_all_app rs1 rs2 p p' :
  serve_all (rs1 ++ rs2) p = Some p' ->
  exists p1, serve_all rs1 p = Some p1 /\ serve_all rs2 p1 = Some p'.
Proof.
  revert p. induction rs1 as [|r rs1 IH]; simpl; intros p Hrun; [eauto|].
  destruct (serve r p) as [p1|]; [eauto|discriminate].
Qed.

(** C9.  In every state the process can reach by constructing, retaining
    and releasing controllers: at most one instance is live, and it is the
    one the static pointer names; constructing while it is live returns
    that very instance with one more reference and allocates nothing;
    releasing a reference destroys the instance exactly when it was the
    last one, and the static pointer is then NULL again; constructing when
    none is live creates a new instance, with one reference, under a serial
    that no earlier instance ever had. *)
Theorem controller_is_singleton (rs : list Request) (p : Process) :
  serve_all rs boot = Some p ->
  (forall a b, live p a -> live p b -> a = b) /\
  (forall a, live p a <-> gpm_control_object p = Some a) /\
  (forall a o, heap p !! a = Some o ->
     exists p',
       gpm_control_new p = Some (a, p') /\
       next_serial p' = next_serial p /\
       gpm_control_object p' = Some a /\
       heap p' = {[a := {| ref_count := Datatypes.S (ref_count o);
                           weak_pointer := weak_pointer o |}]}) /\
  (forall a o, heap p !! a = Some o ->
     exists p',
       g_object_unref a p = Some p' /\
       (live p' a <-> ref_count o <> 1%nat) /\
       (ref_count o = 1%nat ->
        heap p' = ∅ /\ gpm_control_object p' = None) /\
       (ref_count o <> 1%nat ->
        gpm_control_object p' = Some a /\
        heap p' = {[a := {| ref_count := Nat.pred (ref_count o);
                            weak_pointer := weak_pointer o |}]})) /\
  (gpm_control_object p = None ->
     exists p',
       gpm_control_new p = Some (next_serial p, p') /\
       gpm_control_object p' = Some (next_serial p) /\
       heap p' = {[next_serial p := {| ref_count := 1;
                                       weak_pointer := true |}]}) /\
  (forall rs1 rs2 p1 a,
     rs = rs1 ++ rs2 -> serve_all rs1 boot = Some p1 -> live p1 a ->
     (a < next_serial p)%positive).
Proof.
  intros Hrun.
  destruct (singleton_inv_serve_all rs boot p singleton_inv_boot Hrun)
    as [Hinv _].
  repeat apply conj.
  - intros a b [oa Ha] [ob Hb].
    destruct (live_lookup p a oa Hinv Ha) as (Hga & _).
    destruct (live_lookup p b ob Hinv Hb) as (Hgb & _). congruence.
  - intros a. split.
    + intros [o Ho]. apply (live_lookup p a o Hinv Ho).
    + intros Hg. destruct Hinv as [_ Hone]. rewrite Hg in Hone.
      destruct Hone as (o & Hh & _). exists o. rewrite Hh.
      apply lookup_singleton_eq.
  - intros a o Ho.
    destruct (live_lookup p a o Hinv Ho) as (Hg & Hh & _).
    eexists. split; [apply (construct_live p a o Hg Hh)|]. simpl. auto.
  - intros a o Ho.
    destruct (live_lookup p a o Hinv Ho) as (Hg & Hh & Hw & Hc & _).
    destruct (ref_count o) as [|[|n]] eqn:Hn; [lia| |].
    + eexists. split; [apply (release_last p a o Hh Hn)|].
      rewrite Hw. unfold live. simpl. repeat split; try congruence.
      * intros [o' Ho']. rewrite lookup_empty in Ho'. discriminate.
    + eexists. split; [apply (release_shared p a o n Hh Hn)|].
      unfold live. simpl. repeat split; try congruence; try lia.
      intros _. eexists. apply lookup_singleton_eq.
  - intros Hg. destruct Hinv as [_ Hnone]. rewrite Hg in Hnone.
    eexists. split; [apply (construct_fresh p Hg Hnone)|]. simpl. auto.
  - intros rs1 rs2 p1 a -> Hrun1 Hlive.
    destruct (serve_all_app rs1 rs2 boot p Hrun) as (p1' & Hrun1' & Hrun2).
    rewrite Hrun1 in Hrun1'. injection Hrun1' as <-.
    destruct (singleton_inv_serve_all rs1 boot p1 singleton_inv_boot Hrun1)
      as [Hinv1 _].
    destruct (singleton_inv_serve_all rs2 p1 p Hinv1 Hrun2) as [_ Hle].
    destruct Hinv1 as [Hser _]. specialize (Hser a Hlive). lia.
Qed.

Lemma controller_is_singleton_witness :
  serve_all [Construct; Construct; Release 1; Release 1; Construct] boot
  = Some restarted /\
  (forall a b, live restarted a -> live restarted b -> a = b) /\
  (forall a, live restarted a <-> gpm_control_object restarted = Some a).
Proof.
  split; [reflexivity|].
  pose proof (controller_is_singleton
                [Construct; Construct; Release 1; Release 1; Construct]
                restarted eq_refl) as (Hone & Hglobal & _).
  exact (conj Hone Hglobal).
Defined.

(** ** More about the transitions *)

Lemma after_credentials_control_view t :
  List.filter after_credentials (control_view t)
  = List.filter after_credentials t.
Proof.
  apply filter_sub. intros [] H; first [discriminate H | reflexivity].
Qed.

Lemma transition_calls_once action cfg error :
  all_runs (gpm_control_transition action cfg error)
    (fun _ t => calls_once_b t = true).
Proof.
  destruct action, cfg as [[] []]; explore; reflexivity.
Qed.

Lemma credentials_first action cfg error :
  all_runs (gpm_control_transition action cfg error)
    (fun _ t =>
       List.filter side_effect t
       = List.filter is_credential_lock t
         ++ List.filter after_credentials t).
Proof.
  destruct action, cfg as [[] []]; explore; reflexivity.
Qed.

Lemma backends_by_own_key action cfg error :
  all_runs (gpm_control_transition action cfg error)
    (fun _ t =>
       existsb is_secret_get t
       = WITH_LIBSECRET cfg
         && hd false (reads GPM_SETTINGS_LOCK_KEYRING_SUSPEND t) /\
       existsb is_keyring_lock t
       = WITH_KEYRING cfg
         && List.last (reads (lock_keyring_key action) t) false).
Proof.
  destruct action, cfg as [[] []]; explore; split; reflexivity.
Qed.

Lemma secret_calls_chained action cfg error :
  all_runs (gpm_control_transition action cfg error)
    (fun _ t =>
       let c := List.filter is_credential_lock t in
       (forall sv objs r,
           In (EvSecretLock sv objs r) c ->
           objs <> [] /\ In (EvSecretCollections sv objs) c) /\
       (forall sv objs,
           In (EvSecretCollections sv objs) c -> In (EvSecretGet (inr sv)) c)).
Proof.
  destruct action, cfg as [[] []]; explore; split; intros;
    repeat match goal with
      | H : _ \/ _ |- _ => destruct H as [H | H]
      | H : False |- _ => destruct H
      | H : @eq Event _ _ |- _ => first [discriminate H | injection H as <- <- <- | injection H as <- <-]
      end;
    repeat split; try discriminate; in_trace.
Qed.

(** X1.  No retry: in one suspend or hibernate the login manager is
    probed at most twice, each setting is read at most twice, and every
    other external action (connecting to login1, the privileged call, each
    of the two broadcasts, each network action, each credential-store
    call) happens at most once. *)
Theorem transition_never_retries
    {S : Type} (h : Handler S) (s : S) action cfg error :
  let t := trace_of (run h (gpm_control_transition action cfg error) s) in
  (occurrences is_probe t <= 2)%nat /\
  (forall P, In P single_shot -> (occurrences P t <= 1)%nat) /\
  (forall key, (length (reads key t) <= 2)%nat).
Proof.
  intros t.
  pose proof (run_all_runs h _ _ (transition_calls_once action cfg error) s)
    as Hb.
  fold t in Hb. unfold calls_once_b in Hb.
  apply andb_prop in Hb as [Hb Hreads]. apply andb_prop in Hb as [Hp Hs].
  repeat split.
  - apply Nat.leb_le, Hp.
  - intros P HP. apply Nat.leb_le.
    exact (proj1 (forallb_forall _ _) Hs P HP).
  - intros key. apply Nat.leb_le.
    apply (proj1 (forallb_forall _ _) Hreads key).
    destruct key; in_trace.
Qed.

(** X2.  The side effects of a suspend or hibernate come in a fixed
    order.  All credential-store calls come first.  What follows is
    nothing at all (login manager unavailable at entry), or: the network
    pre-sleep action if the setting was on, the "sleep" broadcast, the
    login1 traffic, the "resume" broadcast, the network post-wake action if
    the setting was on; cut short after a refused connection, and without
    login1 traffic after a failed re-check. *)
Theorem side_effects_in_order
    {S : Type} (h : Handler S) (s : S) action cfg error :
  let t := trace_of (run h (gpm_control_transition action cfg error) s) in
  List.filter side_effect t
  = List.filter is_credential_lock t ++ List.filter after_credentials t /\
  (List.filter after_credentials t = [] \/
   (exists b1 b2,
       List.filter after_credentials t
       = pre_sleep b1 (EvSignal SLEEP action :: EvSignal RESUME action
                       :: post_wake b2)) \/
   (exists b1 e,
       List.filter after_credentials t
       = pre_sleep b1 [EvSignal SLEEP action; EvProxyNew (inl e)]) \/
   (exists b1 b2 p reply,
       List.filter after_credentials t
       = pre_sleep b1 (EvSignal SLEEP action :: EvProxyNew (inr p)
                       :: EvProxyCall p (login1_method action) false reply
                       :: EvSignal RESUME action :: post_wake b2))).
Proof.
  intros t. split.
  - exact (run_all_runs h _ _ (credentials_first action cfg error) s).
  - subst t. rewrite <- after_credentials_control_view.
    destruct (transition_follows_shape h s action cfg error)
      as [|b1 b2|b1 e|b1 b2 p reply].
    + left. reflexivity.
    + right. left. exists b1, b2. destruct b1, b2; reflexivity.
    + right. right. left. exists b1, e. destruct b1; reflexivity.
    + right. right. right. exists b1, b2, p, reply.
      destruct b1, b2; reflexivity.
Qed.

(** X3.  A suspend or hibernate returns failure in exactly three
    situations: the login manager was unavailable at entry, it was
    unavailable at the re-check, or the connection to it was refused. *)
Theorem failure_has_three_causes
    {S : Type} (h : Handler S) (s : S) action cfg error :
  let r := run h (gpm_control_transition action cfg error) s in
  (result_of r).1 = FALSE <->
  probes (trace_of r) = [false] \/
  probes (trace_of r) = [true; false] \/
  exists e, In (EvProxyNew (inl e)) (trace_of r).
Proof.
  intros r. subst r.
  rewrite refused_in_view, <- probes_control_view.
  destruct (transition_follows_shape h s action cfg error)
    as [|[] []|[] e|[] [] p reply]; simpl; split; intros H; auto;
    try discriminate H;
    try (right; right; exists e; solve [repeat first [left; reflexivity | right]]);
    repeat match goal with
      | H : _ \/ _ |- _ => destruct H as [H | H]
      | H : ex _ |- _ => destruct H as [? H]
      | H : False |- _ => destruct H
      end; discriminate H.
Qed.

(** X4.  The caller's error slot is written by the secret service and by
    nothing else: it ends as it was unless a secret-service call failed,
    and then it holds that error if it was empty.  So when no
    secret-service call failed the slot is unchanged, whatever the return
    value; a build without libsecret never touches it; a NULL slot stays
    NULL; an error already there is never replaced.  A failure of the
    login manager adds nothing to the slot. *)
Theorem error_slot_written_by_secret_service_only
    {S : Type} (h : Handler S) (s : S) action cfg error :
  let r := run h (gpm_control_transition action cfg error) s in
  (result_of r).2
  = match secret_errors (trace_of r) with
    | [] => error
    | e :: _ => g_propagate_error error e
    end /\
  (secret_errors (trace_of r) = [] -> (result_of r).2 = error) /\
  (WITH_LIBSECRET cfg = false -> (result_of r).2 = error) /\
  (error = None -> (result_of r).2 = None) /\
  (forall e0, error = Some (Some e0) -> (result_of r).2 = Some (Some e0)).
Proof.
  intros r.
  destruct (run_all_runs h _ _ (transition_error_slot action cfg error) s)
    as (_ & Hslot & Hkey).
  fold r in Hslot, Hkey. split; [exact Hslot|].
  split; [intros Hnone; rewrite Hslot, Hnone; reflexivity|].
  rewrite Hslot. repeat split.
  - intros Hcfg. destruct (secret_errors (trace_of r)); [reflexivity|].
    destruct Hkey as [Hlib _]; [discriminate|]. congruence.
  - intros ->. destruct (secret_errors (trace_of r)); reflexivity.
  - intros e0 ->. destruct (secret_errors (trace_of r)); reflexivity.
Qed.

(** X5.  The secret service is used in the order connect, enumerate,
    lock: collections are asked of a service that was connected, and the
    lock call is made on a service with exactly the collections it
    returned, never with an empty list. *)
Theorem secret_service_calls_chained
    {S : Type} (h : Handler S) (s : S) action cfg error :
  let t := trace_of (run h (gpm_control_transition action cfg error) s) in
  (forall sv objs r,
      In (EvSecretLock sv objs r) t ->
      objs <> [] /\ In (EvSecretCollections sv objs) t) /\
  (forall sv objs,
      In (EvSecretCollections sv objs) t -> In (EvSecretGet (inr sv)) t).
Proof.
  intros t.
  destruct (run_all_runs h _ _ (secret_calls_chained action cfg error) s)
    as [Hlock Hcols].
  fold t in Hlock, Hcols. cbv zeta in Hlock, Hcols.
  assert (Hin : forall ev, is_credential_lock ev = true ->
                  (In ev t <-> In ev (List.filter is_credential_lock t))).
  { intros ev Hev. rewrite filter_In. tauto. }
  split.
  - intros sv objs r H. apply Hin in H; [|reflexivity].
    destruct (Hlock sv objs r H) as [Hne Hc]. split; [exact Hne|].
    apply Hin; [reflexivity | exact Hc].
  - intros sv objs H. apply Hin in H; [|reflexivity].
    apply Hin; [reflexivity|]. exact (Hcols sv objs H).
Qed.

(** X6.  Each credential back-end is driven by its own read of the
    settings and by nothing else.  The secret service is contacted exactly
    when the build has libsecret and the first read of
    lock-keyring-on-suspend returned true (in hibernate too).  gnome-keyring
    is asked to lock exactly when the build has it and the last read of the
    transition's own key returned true, whatever the secret service did. *)
Theorem backends_driven_by_own_key
    {S : Type} (h : Handler S) (s : S) action cfg error :
  let t := trace_of (run h (gpm_control_transition action cfg error) s) in
  existsb is_secret_get t
  = WITH_LIBSECRET cfg
    && hd false (reads GPM_SETTINGS_LOCK_KEYRING_SUSPEND t) /\
  existsb is_keyring_lock t
  = WITH_KEYRING cfg && List.last (reads (lock_keyring_key action) t) false.
Proof.
  exact (run_all_runs h _ _ (backends_by_own_key action cfg error) s).
Qed.

(** ** The error quark *)

Lemma quark_index_app str table more i :
  quark_index str table = Some i ->
  quark_index str (table ++ more) = Some i.
Proof.
  revert i. induction table as [|x table IH]; simpl; [discriminate|].
  intros i. destruct (String.eqb x str); [auto|].
  destruct (quark_index str table) as [j|]; [|discriminate].
  rewrite (IH j eq_refl). auto.
Qed.

Lemma quark_index_fresh str table :
  quark_index str table = None ->
  quark_index str (table ++ [str]) = Some (length table).
Proof.
  induction table as [|x table IH]; simpl.
  - rewrite String.eqb_refl. reflexivity.
  - destruct (String.eqb x str); [discriminate|].
    destruct (quark_index str table); [discriminate|].
    intros _. rewrite IH; reflexivity.
Qed.

Lemma quark_index_nth str table i :
  quark_index str table = Some i -> nth_error table i = Some str.
Proof.
  revert i. induction table as [|x table IH]; simpl; [discriminate|].
  intros i. destruct (String.eqb x str) eqn:Hx.
  - intros [= <-]. apply String.eqb_eq in Hx. subst. reflexivity.
  - destruct (quark_index str table) as [j|]; [|discriminate].
    intros [= <-]. simpl. auto.
Qed.

Lemma g_quark_from_static_string_spec str table :
  let '(q, table') := g_quark_from_static_string str table in
  q <> 0%nat /\ quark_index str table' = Some (Nat.pred q) /\
  exists more, table' = table ++ more.
Proof.
  unfold g_quark_from_static_string.
  destruct (quark_index str table) as [i|] eqn:Hi; simpl.
  - repeat split; auto. exists []. rewrite app_nil_r. reflexivity.
  - repeat split; auto using quark_index_fresh. eauto.
Qed.

Lemma quark_inv_serve r st : quark_inv st -> quark_inv (quark_serve r st).
Proof.
  intros Hinv. destruct r as [|str]; simpl.
  - unfold gpm_control_error_quark.
    destruct (Nat.eqb (quark st) 0) eqn:Hq; [|exact Hinv].
    pose proof (g_quark_from_static_string_spec "gpm_control_error"
                  (registry st)) as Hspec.
    destruct (g_quark_from_static_string "gpm_control_error" (registry st))
      as [q table]. simpl. right. simpl. tauto.
  - destruct Hinv as [H0 | [Hidx Hne]]; [left; exact H0|]. right. simpl.
    split; [|exact Hne].
    pose proof (g_quark_from_static_string_spec str (registry st)) as Hspec.
    destruct (g_quark_from_static_string str (registry st)) as [q table].
    destruct Hspec as (_ & _ & more & ->). simpl.
    apply quark_index_app, Hidx.
Qed.

Lemma quark_inv_serve_all rs st :
  quark_inv st -> quark_inv (quark_serve_all rs st).
Proof.
  revert st. induction rs as [|r rs IH]; simpl; intros st Hinv; [exact Hinv|].
  apply IH, quark_inv_serve, Hinv.
Qed.

(** X7.  However often [gpm_control_error_quark] was called before, and
    whatever other strings were interned in between, it returns a non-zero
    quark that GLib resolves to "gpm_control_error", the same quark GLib
    itself would give for that string, and calling it again returns the
    same quark and changes nothing. *)
Theorem error_quark_stable (table : list string) (rs : list QuarkRequest) :
  let st := quark_serve_all rs (quark_boot table) in
  let q := (gpm_control_error_quark st).1 in
  let st' := (gpm_control_error_quark st).2 in
  q <> 0%nat /\
  g_quark_to_string q (registry st') = Some "gpm_control_error" /\
  g_quark_from_static_string "gpm_control_error" (registry st')
  = (q, registry st') /\
  gpm_control_error_quark st' = (q, st').
Proof.
  intros st q st'.
  assert (Hinv : quark_inv st)
    by (apply quark_inv_serve_all; left; reflexivity).
  assert (Hinv' : quark_inv st' /\ quark st' = q /\ q <> 0%nat).
  { subst q st'. pose proof (quark_inv_serve ErrorQuark st Hinv) as H.
    simpl in H. split; [exact H|].
    unfold gpm_control_error_quark in *.
    destruct (Nat.eqb (quark st) 0) eqn:Hq.
    - pose proof (g_quark_from_static_string_spec "gpm_control_error"
                    (registry st)) as Hspec.
      destruct (g_quark_from_static_string "gpm_control_error" (registry st))
        as [q table']. simpl. tauto.
    - simpl. apply Nat.eqb_neq in Hq. auto. }
  destruct Hinv' as ([H0 | [Hidx _]] & Hq & Hne); [congruence|].
  rewrite Hq in Hidx. repeat split.
  - exact Hne.
  - destruct q as [|i]; [congruence|]. simpl in *.
    apply quark_index_nth, Hidx.
  - unfold g_quark_from_static_string. rewrite Hidx.
    destruct q; [congruence|]. reflexivity.
  - unfold gpm_control_error_quark at 1. rewrite Hq.
    destruct q; [congruence|]. reflexivity.
Qed.

(** ** Releasing the controller *)

(** X8.  In any state the process can reach, a live controller with [k]
    references survives every run of fewer than [k] releases, and the
    [k]-th release destroys it and leaves the static pointer NULL: the
    number of [g_object_unref] calls that ends the instance is exactly its
    reference count. *)
Theorem controller_dies_at_last_release
    (rs : list Request) (p : Process) (a : positive) (o : GObject) :
  serve_all rs boot = Some p ->
  heap p !! a = Some o ->
  (forall j, (j < ref_count o)%nat ->
     exists p', serve_all (repeat (Release a) j) p = Some p' /\
                gpm_control_object p' = Some a /\
                exists o', heap p' !! a = Some o' /\
                           ref_count o' = (ref_count o - j)%nat) /\
  serve_all (repeat (Release a) (ref_count o)) p
  = Some {| heap := ∅; next_serial := next_serial p;
            gpm_control_object := None |}.
Proof.
  intros Hrun Ho.
  destruct (singleton_inv_serve_all rs boot p singleton_inv_boot Hrun)
    as [Hinv _].
  destruct (live_lookup p a o Hinv Ho) as (Hg & Hh & Hw & Hc & _).
  assert (Hsplit : forall j q, (q = ref_count o - j)%nat -> (0 < q)%nat ->
            (j < ref_count o)%nat ->
            serve_all (repeat (Release a) j) p
            = Some {| heap := {[a := {| ref_count := q;
                                        weak_pointer := weak_pointer o |}]};
                      next_serial := next_serial p;
                      gpm_control_object := gpm_control_object p |}).
  { induction j as [|j IH]; intros q Hq Hpos Hlt.
    - simpl. rewrite Nat.sub_0_r in Hq. subst q.
      destruct p, o; simpl in *. subst. reflexivity.
    - replace (Datatypes.S j) with (j + 1)%nat by lia.
      rewrite repeat_app. simpl.
      assert (Hj : serve_all (repeat (Release a) j ++ [Release a]) p
                   = match serve_all (repeat (Release a) j) p with
                     | Some p1 => serve (Release a) p1
                     | None => None
                     end).
      { clear. generalize (repeat (Release a) j). intros l. revert p.
        induction l as [|x l IHl]; intros p; simpl.
        - destruct (g_object_unref a p); reflexivity.
        - destruct (serve x p); [apply IHl | reflexivity]. }
      rewrite Hj, (IH (Datatypes.S q)) by lia. simpl.
      destruct q as [|q']; [lia|].
      erewrite release_shared; [|reflexivity|reflexivity]. reflexivity. }
  split.
  - intros j Hj. eexists. split; [apply (Hsplit j _ eq_refl); lia|].
    simpl. split; [exact Hg|]. eexists. rewrite lookup_singleton_eq.
    split; reflexivity.
  - destruct (ref_count o) as [|n] eqn:Hn; [lia|].
    replace (Datatypes.S n) with (n + 1)%nat by lia.
    rewrite repeat_app.
    assert (Happ : forall l1 l2 q, serve_all (l1 ++ l2) q
                   = match serve_all l1 q with
                     | Some q1 => serve_all l2 q1
                     | None => None
                     end).
    { clear. induction l1 as [|x l1 IH]; intros l2 q; simpl; [reflexivity|].
      destruct (serve x q); [apply IH | reflexivity]. }
    rewrite Happ, (Hsplit n 1%nat) by lia. simpl.
    erewrite release_last; [|reflexivity|reflexivity]. simpl.
    rewrite Hw. reflexivity.
Qed.

Lemma controller_dies_at_last_release_witness :
  (forall j, (j < 2)%nat ->
     exists p', serve_all (repeat (Release 1%positive) j)
                  {| heap := {[1%positive := {| ref_count := 2;
                                                weak_pointer := true |}]};
                     next_serial := 2%positive;
                     gpm_control_object := Some 1%positive |} = Some p' /\
                gpm_control_object p' = Some 1%positive /\
                exists o', heap p' !! 1%positive = Some o' /\
                           ref_count o' = (2 - j)%nat) /\
  serve_all (repeat (Release 1%positive) 2)
    {| heap := {[1%positive := {| ref_count := 2; weak_pointer := true |}]};
       next_serial := 2%positive;
       gpm_control_object := Some 1%positive |}
  = Some {| heap := ∅; next_serial := 2%positive;
            gpm_control_object := None |}.
Proof.
  exact (controller_dies_at_last_release [Construct; Construct] _
           1%positive {| ref_count := 2; weak_pointer := true |}
           eq_refl eq_refl).
Defined.

(** ** No failure goes unlogged *)

Lemma transition_warnings action cfg error :
  all_runs (gpm_control_transition action cfg error)
    (fun _ t => with_due_warnings t = t).
Proof.
  destruct action, cfg as [[] []]; explore; reflexivity.
Qed.

Lemma shutdown_warnings error :
  all_runs (gpm_control_shutdown error)
    (fun _ t => with_due_warnings t = t).
Proof. explore; reflexivity. Qed.

(** X15.  In shutdown, suspend and hibernate every failed reply (of the
    secret service at connect, enumerate or lock, of gnome-keyring, of the
    connection to login1, of the privileged call) is followed at once by
    its warning, and no warning is logged for any other reason: the trace
    is what one gets by dropping its warnings and writing the due warning
    after each failed reply. *)
Theorem every_failure_is_logged_once
    {S : Type} (h : Handler S) (s : S) action cfg error :
  let t1 := trace_of (run h (gpm_control_transition action cfg error) s) in
  let t2 := trace_of (run h (gpm_control_shutdown error) s) in
  with_due_warnings t1 = t1 /\ with_due_warnings t2 = t2.
Proof.
  split.
  - exact (run_all_runs h _ _ (transition_warnings action cfg error) s).
  - exact (run_all_runs h _ _ (shutdown_warnings error) s).
Qed.

(** ** The process entry point *)
Module MainFacts.
Import Main.

(** Case analysis on the replies a run of [main] depends on. *)
Ltac main_cases env :=
  repeat match goal with
    | |- context [match env ?c with _ => _ end] =>
        let r := fresh "r" in destruct (env c) as [r | r] eqn:?; cbn
    | |- context [if ?b then _ else _] =>
        let E := fresh "E" in destruct b eqn:E; cbn
    end.

Ltac in_calls := simpl; solve [repeat first [left; reflexivity | right]].

Ltac no_such_call H :=
  simpl in H;
  repeat (destruct H as [H | H];
          [first [discriminate H | injection H; intros; subst] |]);
  try contradiction.

(** X9.  [gpm_object_register] returns TRUE exactly when the RequestName
    call went through and answered "primary owner".  Only then is the
    object exported on the connection; in every other case nothing is
    exported.  The bus proxy is released exactly when the call went
    through: on a failed call it is never released. *)
Theorem object_registered_iff_primary_owner
    (env : Env) (connection object : Handle) :
  let r := name_reply env connection in
  let run := mrun env (gpm_object_register connection object) in
  run.1 = Returned (is_primary_owner r) /\
  (forall c o, In (dbus_g_connection_register_g_object c o) run.2 <->
               is_primary_owner r = true /\ c = connection /\ o = object) /\
  (forall p, In (g_object_unref p) run.2 <->
             call_ret r = true /\
             p = env (dbus_g_proxy_new_for_name connection)).
Proof.
  intros r run. subst run r.
  unfold gpm_object_register, name_reply, is_primary_owner. cbn.
  destruct (env (dbus_g_proxy_call_RequestName
                   (env (dbus_g_proxy_new_for_name connection))))
    as [ret err res].
  destruct err, ret; cbn;
    try destruct (Nat.eqb res DBUS_REQUEST_NAME_REPLY_PRIMARY_OWNER); cbn;
    (split; [reflexivity|]);
    split; intros; split; intros H;
    try (destruct H as (? & ? & ?)); try (destruct H as (? & ?));
    subst; try discriminate; try in_calls;
    no_such_call H; auto.
Qed.

(** Every reply [main] looks at, case by case. *)
Ltac main_explore env :=
  unfold main, gpm_object_register, options_of, startup_fails, name_reply,
    is_primary_owner in *;
  cbn in *;
  repeat match goal with
    | |- context [env (g_option_context_parse ?c ?a)] =>
        destruct (env (g_option_context_parse c a)) as [[] [] []]; cbn in *
    | |- context [env (dbus_g_bus_get ?b)] =>
        destruct (env (dbus_g_bus_get b)) as [? | ?]; cbn in *
    | |- context [env (dbus_g_proxy_call_RequestName ?p)] =>
        destruct (env (dbus_g_proxy_call_RequestName p))
          as [[] [?|] [|[|?]]]; cbn in *
    | |- context [Z.eqb ?a ?b] => destruct (Z.eqb a b); cbn in *
    end.

(** X10.  Started with the version flag, [main] prints the version and
    returns 0.  It initialises neither GTK nor D-Bus, creates neither the
    session client nor the manager, installs no timer and runs no main
    loop; the one thing it created, the option context, it frees. *)
Theorem version_flag_only_prints (env : Env) (argv : list string) :
  version (options_of env argv) = true ->
  let run := mrun env (main argv) in
  run.1 = Returned 0%Z /\
  In (g_print ("Version %s" ++ LF)) run.2 /\
  List.filter is_startup run.2 = [] /\
  List.filter is_release run.2
  = [g_option_context_free (env g_option_context_new)].
Proof.
  intros Hv run. subst run. revert Hv. main_explore env;
    intros Hv; try discriminate Hv; repeat split; in_calls.
Qed.

Lemma version_flag_only_prints_witness :
  let run := mrun version_env (main ["mate-power-manager"; "--version"]) in
  run.1 = Returned 0%Z /\
  In (g_print ("Version %s" ++ LF)) run.2 /\
  List.filter is_startup run.2 = [] /\
  List.filter is_release run.2
  = [g_option_context_free (version_env g_option_context_new)].
Proof.
  apply (version_flag_only_prints version_env). reflexivity.
Defined.

(** When every call comes back, [main] returns 0 or ends in [g_error],
    the latter exactly when startup fails with the version flag off. *)
Lemma main_outcome_when_calls_return (env : Env) (argv : list string) :
  let run := mrun env (main argv) in
  (run.1 = Returned 0%Z \/ exists format, run.1 = Aborted format) /\
  ((exists format, run.1 = Aborted format) <->
   version (options_of env argv) = false /\ startup_fails env = true).
Proof.
  intros run. subst run. main_explore env;
    (split; [first [left; reflexivity | right; eexists; reflexivity]|]);
    split;
    first [ intros [? H]; discriminate H
          | intros [H1 H2]; first [discriminate H1 | discriminate H2]
          | intros _; first [split; reflexivity | eexists; reflexivity] ].
Qed.

Lemma mrun_to_all {A} (env : Env) (comes_back : MainCall -> bool)
    (p : MProg A) :
  forallb comes_back (mrun env p).2 = true ->
  mrun_to env comes_back p = (fate_of (mrun env p).1, (mrun env p).2).
Proof.
  induction p as [a | c k IH | format]; simpl; [reflexivity | | reflexivity].
  destruct (mrun env (k (env c))) as [o t] eqn:Hk. simpl.
  intros Hall. apply andb_prop in Hall as [Hc Ht]. rewrite Hc.
  specialize (IH (env c)). rewrite Hk in IH. rewrite (IH Ht). reflexivity.
Qed.

Lemma mrun_to_stays {A} (env : Env) (comes_back : MainCall -> bool)
    (p : MProg A) :
  forallb comes_back (mrun env p).2 = false ->
  exists c before,
    mrun_to env comes_back p = (Stays c, before ++ [c]) /\
    comes_back c = false /\ forallb comes_back before = true /\
    exists after, (mrun env p).2 = before ++ c :: after.
Proof.
  induction p as [a | c k IH | format]; simpl; [discriminate | | discriminate].
  destruct (mrun env (k (env c))) as [o t] eqn:Hk. simpl.
  destruct (comes_back c) eqn:Hc; simpl.
  - intros Ht. specialize (IH (env c)). rewrite Hk in IH.
    destruct (IH Ht) as (c' & before & Hrun & Hc' & Hb & after & Hfull).
    rewrite Hrun. exists c', (c :: before). simpl. rewrite Hc, Hb.
    simpl in Hfull. rewrite Hfull. eauto 10.
  - intros _. exists c, []. simpl. eauto 10.
Qed.

Lemma mrun_to_stays_at {A} (env : Env) (comes_back : MainCall -> bool)
    (p : MProg A) (c : MainCall) :
  In c (mrun_to env comes_back p).2 -> comes_back c = false ->
  (mrun_to env comes_back p).1 = Stays c.
Proof.
  induction p as [a | c' k IH | format]; simpl; [intros [] | | intros []].
  destruct (comes_back c') eqn:Hc'.
  - specialize (IH (env c')).
    destruct (mrun_to env comes_back (k (env c'))) as [o t]. simpl in *.
    intros [<- | Hin] Hc; [congruence | auto].
  - simpl. intros [<- | []] _. reflexivity.
Qed.

(** X11.  [main] never returns a status other than 0.  A call may fail
    to come back ([g_main_loop_run] blocks until a callback quits the
    loop; [gtk_init] and [g_option_context_parse] may end the process):
    then [main] stays in the first such call and neither returns nor
    reaches [g_error] after it; in particular it stays in
    [g_main_loop_run] when that is reached and does not come back.  When
    every call it makes comes back, [main] ends in [g_error] if the version
    flag is off and the system bus or the session bus cannot be reached or
    the name on the session bus is not obtained as primary owner, and
    returns 0 in every other case. *)
Theorem main_returns_zero_or_aborts
    (env : Env) (comes_back : MainCall -> bool) (argv : list string) :
  let full := mrun env (main argv) in
  let run := mrun_to env comes_back (main argv) in
  (forall status, run.1 = Returns status -> status = 0%Z) /\
  (forall c, In c run.2 -> comes_back c = false -> run.1 = Stays c) /\
  (forallb comes_back full.2 = true ->
   run.2 = full.2 /\
   (version (options_of env argv) = false /\ startup_fails env = true ->
    exists format, run.1 = Aborts format) /\
   (version (options_of env argv) = true \/ startup_fails env = false ->
    run.1 = Returns 0%Z)) /\
  (forallb comes_back full.2 = false ->
   exists c before,
     run = (Stays c, before ++ [c]) /\ comes_back c = false /\
     forallb comes_back before = true /\
     exists after, full.2 = before ++ c :: after).
Proof.
  intros full run.
  destruct (main_outcome_when_calls_return env argv) as [Hzero Habort].
  fold full in Hzero, Habort.
  assert (Hall : forallb comes_back full.2 = true ->
                 run = (fate_of full.1, full.2))
    by (apply mrun_to_all).
  assert (Hstay := mrun_to_stays env comes_back (main argv)).
  fold full run in Hstay.
  split; [|split; [|split]].
  - intros status Hret.
    destruct (forallb comes_back full.2) eqn:Hcb.
    + rewrite (Hall eq_refl) in Hret. simpl in Hret.
      destruct Hzero as [H0 | [format Hf]]; rewrite ?H0, ?Hf in Hret;
        simpl in Hret; congruence.
    + destruct (Hstay eq_refl) as (c & before & Hrun & _).
      rewrite Hrun in Hret. discriminate Hret.
  - intros c. apply mrun_to_stays_at.
  - intros Hcb. rewrite (Hall Hcb). simpl. split; [reflexivity|]. split.
    + intros Hfail. destruct (proj2 Habort Hfail) as [format Hf].
      exists format. rewrite Hf. reflexivity.
    + intros Hok. destruct Hzero as [H0 | Hab]; [rewrite H0; reflexivity|].
      apply Habort in Hab. destruct Hab as [Hv Hs].
      destruct Hok; congruence.
  - exact Hstay.
Qed.

(** X12.  The main loop is run exactly when startup got through and the
    immediate-exit flag is off, and it is the loop [main] created.  A
    timer is installed exactly when startup got through and the timed-exit
    flag is on: 20 seconds, [timed_exit_cb], on that same loop. *)
Theorem main_loop_and_timer (env : Env) (argv : list string) :
  let t := (mrun env (main argv)).2 in
  let started := negb (version (options_of env argv))
                 && negb (startup_fails env) in
  (forall loop,
      In (g_main_loop_run loop) t <->
      started = true /\ immediate_exit (options_of env argv) = false /\
      loop = env g_main_loop_new) /\
  (forall n cb data,
      In (g_timeout_add_seconds n cb data) t <->
      started = true /\ timed_exit (options_of env argv) = true /\
      n = 20%nat /\ data = env g_main_loop_new).
Proof.
  intros t started. subst t started. main_explore env;
    split; intros; split; intros H;
    repeat match goal with f : SourceFunc |- _ => destruct f end;
    try (destruct H as (H1 & H2 & H3); try destruct H3 as (? & ?));
    subst; try discriminate; try in_calls;
    no_such_call H; auto 10.
Qed.

(** X13.  When [main] returns after a startup that got through, it has
    released, in this order and each once, the loop, the session client
    and the manager it created, and then the option context; before them
    only the bus proxy of [gpm_object_register].  When it aborts, none of
    the four was released. *)
Theorem main_releases_what_it_created (env : Env) (argv : list string) :
  let run := mrun env (main argv) in
  version (options_of env argv) = false ->
  (run.1 = Returned 0%Z ->
   exists bus_proxy,
     List.filter is_release run.2
     = [g_object_unref bus_proxy;
        g_main_loop_unref (env g_main_loop_new);
        g_object_unref (env gpm_session_new);
        g_object_unref (env gpm_manager_new);
        g_option_context_free (env g_option_context_new)]) /\
  ((exists format, run.1 = Aborted format) ->
   ~ In (g_main_loop_unref (env g_main_loop_new)) run.2 /\
   ~ In (g_option_context_free (env g_option_context_new)) run.2 /\
   forall object, In (g_object_unref object) run.2 ->
                  exists connection,
                    object = env (dbus_g_proxy_new_for_name connection)).
Proof.
  intros run. subst run. main_explore env; intros Hv; try discriminate Hv;
    (split; [intros Hret; try discriminate Hret; eexists; reflexivity|]);
    intros [format Hab]; try discriminate Hab;
    (split; [intros H; no_such_call H
            | split; [intros H; no_such_call H
                     | intros object H; no_such_call H;
                       eexists; reflexivity]]).
Qed.

Lemma main_releases_what_it_created_witness :
  let run := mrun normal_env (main ["mate-power-manager"; "--timed-exit"]) in
  (run.1 = Returned 0%Z ->
   exists bus_proxy,
     List.filter is_release run.2
     = [g_object_unref bus_proxy;
        g_main_loop_unref (normal_env g_main_loop_new);
        g_object_unref (normal_env gpm_session_new);
        g_object_unref (normal_env gpm_manager_new);
        g_option_context_free (normal_env g_option_context_new)]) /\
  ((exists format, run.1 = Aborted format) ->
   ~ In (g_main_loop_unref (normal_env g_main_loop_new)) run.2 /\
   ~ In (g_option_context_free (normal_env g_option_context_new)) run.2 /\
   forall object, In (g_object_unref object) run.2 ->
                  exists connection,
                    object = normal_env (dbus_g_proxy_new_for_name connection)).
Proof.
  apply (main_releases_what_it_created normal_env). reflexivity.
Defined.

(** ** The loop with the callbacks [main] wires up *)

Lemma main_tables (env : Env) (argv : list string) :
  version (options_of env argv) = false -> startup_fails env = false ->
  let t := (mrun env (main argv)).2 in
  connections t
  = [(env gpm_session_new, "stop", Cb_gpm_main_stop, env g_main_loop_new);
     (env gpm_session_new, "query-end-session",
      Cb_gpm_main_query_end_session, env g_main_loop_new);
     (env gpm_session_new, "end-session", Cb_gpm_main_end_session,
      env g_main_loop_new)] /\
  timers env t
  = match installed_timer env argv with
    | Some id => [(id, Cb_timed_exit, env g_main_loop_new)]
    | None => []
    end.
Proof.
  intros Hv Hs t. subst t. unfold installed_timer. revert Hv Hs.
  main_explore env; intros Hv Hs; try discriminate Hv; try discriminate Hs;
    split; reflexivity.
Qed.

Lemma different_signals a b sig :
  a <> b -> String.eqb a sig = true -> String.eqb b sig = true -> False.
Proof.
  intros Hab Ha Hb. apply String.eqb_eq in Ha, Hb. congruence.
Qed.

Section Loop.
Variables (env : Env) (session loop : Handle) (timer : option nat).

Let conns : list (Handle * string * SessionCallback * Handle) :=
  [(session, "stop", Cb_gpm_main_stop, loop);
   (session, "query-end-session", Cb_gpm_main_query_end_session, loop);
   (session, "end-session", Cb_gpm_main_end_session, loop)].

Let tms : list (nat * SourceFunc * Handle) :=
  match timer with
  | Some id => [(id, Cb_timed_exit, loop)]
  | None => []
  end.

Lemma loop_with_main_tables (ws : list Wakeup) :
  let run := g_main_loop_run_model env conns tms loop ws in
  run.2 = existsb (ends_loop session timer) ws /\
  List.filter is_response run.1
  = map (fun _ => gpm_session_end_session_response session TRUE)
      (List.filter (asks_to_end session)
         (handled (ends_loop session timer) ws)) /\
  List.filter is_quit run.1
  = (if run.2 then [g_main_loop_quit loop] else []) /\
  (forall c, In c run.1 -> is_response c = true \/ is_quit c = true).
Proof.
  induction ws as [|w ws IH]; [cbn; auto 6|].
  cbn zeta in *.
  destruct (g_main_loop_run_model env conns tms loop ws) as [rest returned]
    eqn:Hrest.
  destruct IH as (IH1 & IH2 & IH3 & IH4). simpl in IH1, IH2, IH3, IH4.
  assert (Hstep :
    g_main_loop_run_model env conns tms loop (w :: ws)
    = let calls := (dispatch env conns tms w).1 in
      if ends_loop session timer w then (calls, true)
      else (calls ++ rest, returned)).
  { subst conns tms. destruct w as [i sig flags | id]; cbn -[String.eqb Nat.eqb].
    - destruct (Nat.eqb session i); cbn -[String.eqb Nat.eqb] in *; [|rewrite Hrest; reflexivity].
      destruct (String.eqb "stop" sig) eqn:E1,
               (String.eqb "query-end-session" sig) eqn:E2,
               (String.eqb "end-session" sig) eqn:E3; cbn -[String.eqb Nat.eqb];
        rewrite ?Nat.eqb_refl; cbn -[String.eqb Nat.eqb]; rewrite ?Hrest; try reflexivity;
        exfalso;
        first [ apply (different_signals "stop" "query-end-session" sig);
                  [discriminate | exact E1 | exact E2]
              | apply (different_signals "stop" "end-session" sig);
                  [discriminate | exact E1 | exact E3]
              | apply (different_signals "query-end-session" "end-session"
                         sig);
                  [discriminate | exact E2 | exact E3] ].
    - destruct timer as [t|]; cbn -[String.eqb Nat.eqb] in *; [|rewrite Hrest; reflexivity].
      destruct (Nat.eqb t id) eqn:Et; cbn -[String.eqb Nat.eqb];
        rewrite ?Nat.eqb_refl; cbn -[String.eqb Nat.eqb]; rewrite ?Hrest; reflexivity. }
  rewrite Hstep. clear Hstep. cbn zeta.
  assert (Hcalls :
    let calls := (dispatch env conns tms w).1 in
    List.filter is_response calls
    = (if asks_to_end session w
       then [gpm_session_end_session_response session TRUE] else []) /\
    List.filter is_quit calls
    = (if ends_loop session timer w then [g_main_loop_quit loop] else []) /\
    (forall c, In c calls -> is_response c = true \/ is_quit c = true)).
  { subst conns tms. destruct w as [i sig flags | id]; cbn -[String.eqb Nat.eqb].
    - destruct (Nat.eqb session i) eqn:Ei; cbn -[String.eqb Nat.eqb];
        [apply Nat.eqb_eq in Ei; subst i | repeat split; intros c []].
      destruct (String.eqb "stop" sig) eqn:E1,
               (String.eqb "query-end-session" sig) eqn:E2,
               (String.eqb "end-session" sig) eqn:E3; cbn -[String.eqb Nat.eqb];
        try (exfalso;
             first [ apply (different_signals "stop" "query-end-session" sig);
                  [discriminate | exact E1 | exact E2]
              | apply (different_signals "stop" "end-session" sig);
                  [discriminate | exact E1 | exact E3]
              | apply (different_signals "query-end-session" "end-session"
                         sig);
                  [discriminate | exact E2 | exact E3] ]);
        repeat split; intros c Hc; simpl in Hc;
        repeat (destruct Hc as [<- | Hc]; [auto|]); destruct Hc.
    - destruct timer as [t|]; cbn -[String.eqb Nat.eqb]; [|repeat split; intros c []].
      destruct (Nat.eqb t id); cbn -[String.eqb Nat.eqb]; repeat split; intros c Hc;
        simpl in Hc; repeat (destruct Hc as [<- | Hc]; [auto|]); destruct Hc. }
  cbn zeta in Hcalls. destruct Hcalls as (Hr & Hq & Hin).
  cbn [existsb handled].
  destruct (ends_loop session timer w) eqn:Hend; cbn [fst snd orb].
  - rewrite Hr, Hq. cbn [List.filter map].
    destruct (asks_to_end session w); auto.
  - rewrite !List.filter_app, Hr, Hq, IH2, IH3. cbn [List.filter map app].
    repeat split; auto.
    + destruct (asks_to_end session w); reflexivity.
    + intros c Hc. apply in_app_or in Hc. destruct Hc; auto.
Qed.
End Loop.

(** X14.  While [main] sits in [g_main_loop_run] after a startup that got
    through, with the callbacks it connected and the timer it may have
    installed: the loop returns exactly when the session client emits
    "stop" or "end-session" or the timer is due.  Up to that point every
    "query-end-session" and "end-session" of the session client is
    answered once, with TRUE, in order; [g_main_loop_quit] is called once,
    at the end, on [main]'s loop; and the callbacks call nothing else. *)
Theorem loop_ends_on_stop_end_session_or_timer
    (env : Env) (argv : list string) (ws : list Wakeup) :
  version (options_of env argv) = false ->
  startup_fails env = false ->
  let t := (mrun env (main argv)).2 in
  let session := env gpm_session_new in
  let loop := env g_main_loop_new in
  let ending := ends_loop session (installed_timer env argv) in
  let run := g_main_loop_run_model env (connections t) (timers env t)
               loop ws in
  run.2 = existsb ending ws /\
  List.filter is_response run.1
  = map (fun _ => gpm_session_end_session_response session TRUE)
      (List.filter (asks_to_end session) (handled ending ws)) /\
  List.filter is_quit run.1
  = (if run.2 then [g_main_loop_quit loop] else []) /\
  (forall c, In c run.1 -> is_response c = true \/ is_quit c = true).
Proof.
  intros Hv Hs t session loop ending run. subst run ending.
  destruct (main_tables env argv Hv Hs) as [Hc Ht]. fold t in Hc, Ht.
  rewrite Hc, Ht.
  exact (loop_with_main_tables env session loop (installed_timer env argv) ws).
Qed.

Lemma loop_ends_on_stop_end_session_or_timer_witness :
  let ws := [Emitted 4 "query-end-session" 0; Due 7; Emitted 4 "end-session" 0;
             Emitted 4 "stop" 0] in
  let t := (mrun normal_env (main ["mate-power-manager"])).2 in
  let session := normal_env gpm_session_new in
  let loop := normal_env g_main_loop_new in
  let ending := ends_loop session (installed_timer normal_env
                                     ["mate-power-manager"]) in
  let run := g_main_loop_run_model normal_env (connections t)
               (timers normal_env t) loop ws in
  run.2 = existsb ending ws /\
  List.filter is_response run.1
  = map (fun _ => gpm_session_end_session_response session TRUE)
      (List.filter (asks_to_end session) (handled ending ws)) /\
  List.filter is_quit run.1
  = (if run.2 then [g_main_loop_quit loop] else []) /\
  (forall c, In c run.1 -> is_response c = true \/ is_quit c = true).
Proof.
  intros ws.
  apply (loop_ends_on_stop_end_session_or_timer normal_env
           ["mate-power-manager"] ws); reflexivity.
Defined.
End MainFacts.
